(** * Workout planner: the state transitions of [src/App.js]

    The component [App] holds three pieces of React state, [blocks],
    [graphData] and [log], and four event handlers that update them:
    [handleDragEnd], [addToGraph] (which calls [addToLog]), [deleteLogEntry]
    and [resetAll].  This file embeds those handlers and the chart
    projection as functions on an explicit state record and proves the
    properties the specification lists for them.

    Conventions of the embedding.
    - A handler runs to completion; the updater functions it passes to
      [setLog] and [setGraphData] receive the pending state of their own
      hook.  Variables the updater closes over ([log] inside the
      [setGraphData] updater of [deleteLogEntry]) are the values of the
      render that created the handler.
    - That render is the current one for every handler but one.  The log
      list uses the token as React key, and when two items share a key and
      the list shrinks React leaves one of them on screen: the Delete
      button of such an item still calls the [deleteLogEntry] of the render
      that drew it.  [deleteLogEntryOf] is the handler with its render
      explicit, [deleteLogEntry] the handler of the current render.
    - JavaScript numbers that are integers here (the [km] of the catalog,
      [count], [Date.now()]) are [Z]; they stay far below 2^53.
    - [Date.now()] is an input of the handler that reads it, written [now].
    - Reading a property of [undefined] raises a [TypeError]; handlers
      that can do so return an [outcome]. *)

From Stdlib Require Import ZArith List String Bool Lia Decimal DecimalString.
From Stdlib Require Import DecimalNat Sorted.
Import ListNotations.

Local Open Scope Z_scope.

(** ** Exceptions *)

Inductive exn : Type :=
| TypeError.

Inductive outcome (A : Type) : Type :=
| Ok (a : A)
| Throw (e : exn).

Arguments Ok {A} a.
Arguments Throw {A} e.

Definition bind {A B : Type} (r : outcome A) (k : A -> outcome B) : outcome B :=
  match r with
  | Ok a => k a
  | Throw e => Throw e
  end.

Notation "x <- r ;; k" := (bind r (fun x => k))
  (at level 61, r at next level, right associativity).

(** [Array.prototype.map] with a callback that may raise: the callback is
    applied from left to right and the first exception aborts the call. *)
Fixpoint mapM {A B : Type} (f : A -> outcome B) (l : list A) : outcome (list B) :=
  match l with
  | [] => Ok []
  | a :: l' =>
      b <- f a ;;
      bs <- mapM f l' ;;
      Ok (b :: bs)
  end.

(** [Array.prototype.map] with a callback that uses the index. *)
Fixpoint mapIndexFrom {A B : Type} (f : A -> nat -> B) (i : nat) (l : list A)
  : list B :=
  match l with
  | [] => []
  | a :: l' => f a i :: mapIndexFrom f (S i) l'
  end.

Definition mapIndex {A B : Type} (f : A -> nat -> B) (l : list A) : list B :=
  mapIndexFrom f 0%nat l.

(** ** Data *)

(** An element of [initialBlocks]: [{ id, content, km }]. *)
Module Block.
Record t : Type := mk { id : string; content : string; km : Z }.
End Block.

(** An element of [graphData]: [{ ...block, count }]. *)
Module GraphBlock.
Record t : Type :=
  mk { id : string; content : string; km : Z; count : Z }.

(** [{ ...b, count: c }] *)
Definition withCount (b : t) (c : Z) : t :=
  mk (id b) (content b) (km b) c.

(** [{ ...block, count: c }] for a catalog block. *)
Definition ofBlock (block : Block.t) (c : Z) : t :=
  mk (Block.id block) (Block.content block) (Block.km block) c.
End GraphBlock.

(** An element of [log]: [{ id: Date.now(), content, km }]. *)
Module LogEntry.
Record t : Type := mk { id : Z; content : string; km : Z }.
End LogEntry.

(** [result] of react-beautiful-dnd's [onDragEnd]: [destination] is [null]
    when the item was dropped outside a droppable. *)
Record DraggableLocation : Type :=
  { droppableId : string; index : nat }.

Record DropResult : Type :=
  { source : DraggableLocation; destination : option DraggableLocation }.

(** The three [useState] cells of [App]. *)
Record State : Type :=
  { blocks : list Block.t;
    graphData : list GraphBlock.t;
    log : list LogEntry.t }.

Definition initialBlocks : list Block.t :=
  [ Block.mk "1" "Warm-up" 2;
    Block.mk "2" "Active" 5;
    Block.mk "3" "Cool-down" 3;
    Block.mk "4" "Step Repeats" 4;
    Block.mk "5" "Ramp Up" 6;
    Block.mk "6" "Ramp Down" 4 ].

(** The state of the first render. *)
Definition initialState : State :=
  {| blocks := initialBlocks; graphData := []; log := [] |}.

(** ** Handlers *)

(** The updater [addToGraph] passes to [setGraphData]. *)
Definition addToGraph_updater (block : Block.t) (prev : list GraphBlock.t)
  : list GraphBlock.t :=
  let existingBlock :=
    find (fun b => String.eqb (GraphBlock.content b) (Block.content block)) prev in
  match existingBlock with
  | Some _ =>
      map (fun b =>
             if String.eqb (GraphBlock.content b) (Block.content block)
             then GraphBlock.withCount b (GraphBlock.count b + 1)
             else b)
          prev
  | None => prev ++ [GraphBlock.ofBlock block 1]
  end.

(** The updater [addToLog] passes to [setLog]; [now] is [Date.now()]. *)
Definition addToLog_updater (now : Z) (block : Block.t)
  (prevLog : list LogEntry.t) : list LogEntry.t :=
  let logEntry := LogEntry.mk now (Block.content block) (Block.km block) in
  prevLog ++ [logEntry].

(** [addToGraph(block)], which ends by calling [addToLog(block)]. *)
Definition addToGraph (s : State) (now : Z) (block : Block.t) : State :=
  {| blocks := blocks s;
     graphData := addToGraph_updater block (graphData s);
     log := addToLog_updater now block (log s) |}.

(** [handleDragEnd(result)].  [blocks[result.source.index]] is [undefined]
    past the end of the array; [addToLog] then raises at [block.content]. *)
Definition handleDragEnd (s : State) (now : Z) (result : DropResult)
  : outcome State :=
  match destination result with
  | None => Ok s
  | Some _ =>
      match nth_error (blocks s) (index (source result)) with
      | Some draggedBlock => Ok (addToGraph s now draggedBlock)
      | None => Throw TypeError
      end
  end.

(** The updater [deleteLogEntry] passes to [setLog]. *)
Definition deleteLogEntry_logUpdater (logId : Z) (prevLog : list LogEntry.t)
  : list LogEntry.t :=
  filter (fun entry => negb (LogEntry.id entry =? logId)) prevLog.

(** [log.find(entry => entry.id === logId).content], on the [log] of the
    render the handler belongs to. *)
Definition deletedContent (log : list LogEntry.t) (logId : Z) : outcome string :=
  match find (fun entry => LogEntry.id entry =? logId) log with
  | Some entry => Ok (LogEntry.content entry)
  | None => Throw TypeError
  end.

(** The updater [deleteLogEntry] passes to [setGraphData].  The callback of
    [map] evaluates [deletedContent] once for every element. *)
Definition deleteLogEntry_graphUpdater (log : list LogEntry.t) (logId : Z)
  (prevGraph : list GraphBlock.t) : outcome (list GraphBlock.t) :=
  mapped <-
    mapM (fun block =>
            c <- deletedContent log logId ;;
            Ok (if String.eqb (GraphBlock.content block) c
                then GraphBlock.withCount block
                       (if 1 <? GraphBlock.count block
                        then GraphBlock.count block - 1
                        else 0)
                else block))
         prevGraph ;;
  Ok (filter (fun block => 0 <? GraphBlock.count block) mapped).

(** [deleteLogEntry(logId)] as the current render created it: the [log] its
    [setGraphData] updater searches is the log of the state it updates.
    This is the handler of every Delete button drawn by the current
    render. *)
Definition deleteLogEntry (s : State) (logId : Z) : outcome State :=
  let newLog := deleteLogEntry_logUpdater logId (log s) in
  newGraph <- deleteLogEntry_graphUpdater (log s) logId (graphData s) ;;
  Ok {| blocks := blocks s; graphData := newGraph; log := newLog |}.

(** [deleteLogEntry(logId)] as the render of state [render] created it,
    called when the pending state is [s]: [setLog] filters the pending log,
    while the [setGraphData] updater searches the [log] of [render].  With
    [render = s] this is [deleteLogEntry]; with an earlier [render] it is
    the handler of a Delete button that stayed on screen. *)
Definition deleteLogEntryOf (render s : State) (logId : Z) : outcome State :=
  let newLog := deleteLogEntry_logUpdater logId (log s) in
  newGraph <- deleteLogEntry_graphUpdater (log render) logId (graphData s) ;;
  Ok {| blocks := blocks s; graphData := newGraph; log := newLog |}.

(** [resetAll()]. *)
Definition resetAll (s : State) : State :=
  {| blocks := blocks s; graphData := []; log := [] |}.

(** ** Chart projection and the graph section of the render *)

(** [chartData]: [labels], and the [data] and [backgroundColor] of its one
    dataset. *)
Record ChartData : Type :=
  { labels : list string;
    data : list Z;
    backgroundColor : list string }.

(** The template literal [`hsl(${index * 60}, 50%, 60%)`]. *)
Definition hsl (index : nat) : string :=
  ("hsl(" ++ NilZero.string_of_uint (Nat.to_uint (index * 60)) ++ ", 50%, 60%)")%string.

Definition chartData (graphData : list GraphBlock.t) : ChartData :=
  {| labels := map (fun block => GraphBlock.content block) graphData;
     data := map (fun block => GraphBlock.count block) graphData;
     backgroundColor := mapIndex (fun _ index => hsl index) graphData |}.

(** What the graph section shows: the paragraph "No workouts added yet." or
    the [Bar] chart of [chartData]. *)
Inductive GraphSection : Type :=
| NoWorkoutsAddedYet
| Bar (data : ChartData).

Definition renderGraphSection (s : State) : GraphSection :=
  if (List.length (graphData s) =? 0)%nat
  then NoWorkoutsAddedYet
  else Bar (chartData (graphData s)).

(** ** Reachable states *)

(** The states the handlers of the current render can produce from the
    first render.  [clock s now] says which readings of [Date.now()] are
    considered possible in state [s]; the catalog items that can be clicked
    or dragged are the elements of [blocks].  A Delete press here is a press
    on a button of the current render, so this relation is exact as long as
    the tokens of the log are distinct; [reachableAnyRender] below also has
    the presses on buttons of earlier renders. *)
Section Reachability.

Variable clock : State -> Z -> Prop.

Inductive reachableWith : State -> Prop :=
| reach_initial :
    reachableWith initialState
| reach_click s now block :
    reachableWith s -> In block (blocks s) -> clock s now ->
    reachableWith (addToGraph s now block)
| reach_dragEnd s now result s' :
    reachableWith s -> clock s now ->
    handleDragEnd s now result = Ok s' ->
    reachableWith s'
| reach_delete s logId s' :
    reachableWith s ->
    deleteLogEntry s logId = Ok s' ->
    reachableWith s'
| reach_reset s :
    reachableWith s ->
    reachableWith (resetAll s).

End Reachability.

(** Any reading of the clock: [Date.now()] has millisecond resolution and
    can return the same value twice. *)
Definition reachable : State -> Prop := reachableWith (fun _ _ => True).

(** A clock whose reading differs from every token still in the log. *)
Definition freshClock (s : State) (now : Z) : Prop :=
  ~ In now (map LogEntry.id (log s)).

(** The states reached when a Delete press may also come from a button an
    earlier render drew: the pressed button belongs to the render of some
    reached state [render] and carries the token of an entry of its log.
    Any clock reading is allowed.  Which old buttons React has left on
    screen is not tracked, so every press the component can receive is a
    step of this relation, and what holds of all its states holds of every
    state of the component. *)
Inductive reachableAnyRender : State -> Prop :=
| any_initial :
    reachableAnyRender initialState
| any_click s now block :
    reachableAnyRender s -> In block (blocks s) ->
    reachableAnyRender (addToGraph s now block)
| any_dragEnd s now result s' :
    reachableAnyRender s ->
    handleDragEnd s now result = Ok s' ->
    reachableAnyRender s'
| any_delete render s entry s' :
    reachableAnyRender render -> reachableAnyRender s ->
    In entry (log render) ->
    deleteLogEntryOf render s (LogEntry.id entry) = Ok s' ->
    reachableAnyRender s'
| any_reset s :
    reachableAnyRender s ->
    reachableAnyRender (resetAll s).

(** ** Vocabulary of the specification *)

(** Number of log entries whose [content] is [name]. *)
Definition tally (name : string) (log : list LogEntry.t) : nat :=
  List.length (filter (fun e => String.eqb (LogEntry.content e) name) log).

(** Number of log entries whose [id] is [logId]. *)
Definition occurrences (logId : Z) (log : list LogEntry.t) : nat :=
  List.length (filter (fun e => LogEntry.id e =? logId) log).

(** Every record counts the log entries of its name. *)
Definition countsMatchLog (s : State) : Prop :=
  Forall (fun r => GraphBlock.count r
                   = Z.of_nat (tally (GraphBlock.content r) (log s)))
         (graphData s).

Definition noZeroCount (s : State) : Prop :=
  Forall (fun r => GraphBlock.count r <> 0) (graphData s).

Definition uniqueTokens (s : State) : Prop :=
  NoDup (map LogEntry.id (log s)).

(** The graph data is the tally of the log: tokens and record names are
    unique, every record counts the entries of its name, that count is at
    least 1, and every entry has a record. *)
Record consistent (s : State) : Prop :=
  { tokens_unique : uniqueTokens s;
    names_unique : NoDup (map GraphBlock.content (graphData s));
    counts_match : countsMatchLog s;
    counts_positive : Forall (fun r => 1 <= GraphBlock.count r) (graphData s);
    entries_covered :
      forall e, In e (log s) ->
        exists r, In r (graphData s)
                  /\ GraphBlock.content r = LogEntry.content e }.

(** Deleting the entries of a list of tokens one call after the other. *)
Fixpoint deleteEach (logIds : list Z) (s : State) : outcome State :=
  match logIds with
  | [] => Ok s
  | logId :: rest =>
      s' <- deleteLogEntry s logId ;;
      deleteEach rest s'
  end.

(** Pressing the Delete button of the first displayed entry until the log
    is empty, at most [n] times. *)
Fixpoint deleteFirst (n : nat) (s : State) : outcome State :=
  match n with
  | O => Ok s
  | S n' =>
      match log s with
      | [] => Ok s
      | entry :: _ =>
          s' <- deleteLogEntry s (LogEntry.id entry) ;;
          deleteFirst n' s'
      end
  end.

(** [after] is [before] without one occurrence of [entry], the rest in
    order. *)
Definition removesExactly (entry : LogEntry.t)
  (before after : list LogEntry.t) : Prop :=
  exists l1 l2, before = l1 ++ entry :: l2 /\ after = l1 ++ l2.

(** Order-preserving selection of elements. *)
Inductive subsequence {A : Type} : list A -> list A -> Prop :=
| subseq_nil : subsequence [] []
| subseq_skip a l l' : subsequence l l' -> subsequence l (a :: l')
| subseq_keep a l l' : subsequence l l' -> subsequence (a :: l) (a :: l').

(** The callback of [map] in [deleteLogEntry] once the content [c] of the
    deleted entry is known. *)
Definition decrementNamed (c : string) (block : GraphBlock.t) : GraphBlock.t :=
  if String.eqb (GraphBlock.content block) c
  then GraphBlock.withCount block
         (if 1 <? GraphBlock.count block then GraphBlock.count block - 1 else 0)
  else block.

(** Catalog blocks and states used in the examples. *)
Definition warmUp : Block.t := Block.mk "1" "Warm-up" 2.
Definition active : Block.t := Block.mk "2" "Active" 5.

(** One click on Warm-up at time 1000. *)
Definition oneAdded : State := addToGraph initialState 1000 warmUp.

(** Clicks on Warm-up and on Active, both reading the clock as 1000. *)
Definition twoBlocksSameTime : State := addToGraph oneAdded 1000 active.

(** Two clicks on Warm-up, both reading the clock as 1000. *)
Definition twiceSameTime : State := addToGraph oneAdded 1000 warmUp.

(** Then a click on Active that reads the clock as 2000. *)
Definition thenActive : State := addToGraph twiceSameTime 2000 active.

(** Then a click on Warm-up that reads the clock as 2000, instead. *)
Definition thenWarmUp : State := addToGraph twiceSameTime 2000 warmUp.

(** ** The blocks and log sections of the render *)

(** An integer in JSX text: its decimal digits. *)
Definition numberText (n : Z) : string :=
  NilZero.string_of_int (Z.to_int n).

(** The text [{x.content} - {x.km} km] of a catalog item or a log item. *)
Definition itemText (content : string) (km : Z) : string :=
  (content ++ " - " ++ numberText km ++ " km")%string.

(** One [Draggable] of the blocks section: its [key], [draggableId] and
    [index], the block its [onClick] passes to [addToGraph], and its
    text. *)
Module Draggable.
Record t : Type :=
  mk { key : string; draggableId : string; index : nat;
       onClick : Block.t; text : string }.
End Draggable.

(** [blocks.map((block, index) => <Draggable ...>)]. *)
Definition renderBlocks (s : State) : list Draggable.t :=
  mapIndex (fun block index =>
              Draggable.mk (Block.id block) (Block.id block) index block
                (itemText (Block.content block) (Block.km block)))
           (blocks s).

(** One [li] of the log section: its [key], its text, and the token the
    [onClick] of its Delete button passes to [deleteLogEntry]. *)
Module LogItem.
Record t : Type := mk { key : Z; text : string; onClick : Z }.
End LogItem.

(** What the log section shows: the paragraph "No workouts logged yet." or
    the list of the entries. *)
Inductive LogSection : Type :=
| NoWorkoutsLoggedYet
| LogList (items : list LogItem.t).

Definition renderLogSection (s : State) : LogSection :=
  if (List.length (log s) =? 0)%nat
  then NoWorkoutsLoggedYet
  else LogList
         (map (fun entry =>
                 LogItem.mk (LogEntry.id entry)
                   (itemText (LogEntry.content entry) (LogEntry.km entry))
                   (LogEntry.id entry))
              (log s)).

(** ** Further vocabulary *)

(** Sum of a list of counts, the total height of the bars. *)
Definition sumCounts (counts : list Z) : Z :=
  fold_right Z.add 0 counts.




(** ** Basic facts *)

Lemma mapM_pure {A B : Type} (f : A -> B) (l : list A) :
  mapM (fun a => Ok (f a)) l = Ok (map f l).
Proof.
  induction l as [|a l IH]; simpl; [reflexivity|].
  rewrite IH. reflexivity.
Qed.

Lemma graphUpdater_found log logId entry prevGraph :
  find (fun e => LogEntry.id e =? logId) log = Some entry ->
  deleteLogEntry_graphUpdater log logId prevGraph
  = Ok (filter (fun block => 0 <? GraphBlock.count block)
          (map (decrementNamed (LogEntry.content entry)) prevGraph)).
Proof.
  intros Hfind. unfold deleteLogEntry_graphUpdater, deletedContent.
  rewrite Hfind. simpl.
  change (fun block : GraphBlock.t => Ok _)
    with (fun block => Ok (decrementNamed (LogEntry.content entry) block)).
  rewrite mapM_pure. reflexivity.
Qed.

Lemma graphUpdater_absent log logId prevGraph :
  find (fun e => LogEntry.id e =? logId) log = None ->
  deleteLogEntry_graphUpdater log logId prevGraph
  = match prevGraph with
    | [] => Ok []
    | _ :: _ => Throw TypeError
    end.
Proof.
  intros Hfind. unfold deleteLogEntry_graphUpdater, deletedContent.
  rewrite Hfind. destruct prevGraph; reflexivity.
Qed.

Lemma find_absent logId (log : list LogEntry.t) :
  ~ In logId (map LogEntry.id log) ->
  find (fun e => LogEntry.id e =? logId) log = None.
Proof.
  intros Habs. destruct (find _ log) as [e|] eqn:Hfind; [|reflexivity].
  apply find_some in Hfind. destruct Hfind as [Hin Heq].
  apply Z.eqb_eq in Heq. exfalso. apply Habs. rewrite <- Heq.
  apply in_map. exact Hin.
Qed.

Lemma logUpdater_absent logId (log : list LogEntry.t) :
  ~ In logId (map LogEntry.id log) ->
  deleteLogEntry_logUpdater logId log = log.
Proof.
  intros Habs. unfold deleteLogEntry_logUpdater.
  induction log as [|e l IH]; simpl; [reflexivity|].
  destruct (Z.eqb_spec (LogEntry.id e) logId) as [Heq|Hne]; simpl.
  - exfalso. apply Habs. left. exact Heq.
  - f_equal. apply IH. intros Hin. apply Habs. right. exact Hin.
Qed.

(** The handler of the current render called with a token that no entry
    of its log bears, a call no button makes: nothing changes when the
    graph is empty, and the [setGraphData] updater raises otherwise. *)
Lemma deleteLogEntry_absent s logId :
  ~ In logId (map LogEntry.id (log s)) ->
  deleteLogEntry s logId
  = match graphData s with
    | [] => Ok s
    | _ :: _ => Throw TypeError
    end.
Proof.
  intros Habs. unfold deleteLogEntry.
  rewrite (graphUpdater_absent _ _ _ (find_absent _ _ Habs)).
  rewrite (logUpdater_absent _ _ Habs).
  destruct s as [b g l]; destruct g; reflexivity.
Qed.

Lemma deleteLogEntry_found s logId entry :
  find (fun e => LogEntry.id e =? logId) (log s) = Some entry ->
  deleteLogEntry s logId
  = Ok {| blocks := blocks s;
          graphData :=
            filter (fun block => 0 <? GraphBlock.count block)
              (map (decrementNamed (LogEntry.content entry)) (graphData s));
          log := filter (fun e => negb (LogEntry.id e =? logId)) (log s) |}.
Proof.
  intros Hfind. unfold deleteLogEntry.
  rewrite (graphUpdater_found _ _ _ _ Hfind). reflexivity.
Qed.

Lemma oneAdded_reachable : reachable oneAdded.
Proof.
  apply reach_click; [apply reach_initial | simpl; tauto | exact I].
Qed.

Lemma twoBlocksSameTime_reachable : reachable twoBlocksSameTime.
Proof.
  apply reach_click; [apply oneAdded_reachable | simpl; tauto | exact I].
Qed.

Lemma twiceSameTime_reachable : reachable twiceSameTime.
Proof.
  apply reach_click; [apply oneAdded_reachable | simpl; tauto | exact I].
Qed.

(** ** Drag end without a destination *)

(** C10: a drag-end event whose result has no destination returns the state
    it was given: log, graph data and catalog are all unchanged, whatever
    the source index and the clock are. *)
Theorem handleDragEnd_no_destination :
  forall (s : State) (now : Z) (src : DraggableLocation),
    handleDragEnd s now {| source := src; destination := None |} = Ok s.
Proof. intros s now src. reflexivity. Qed.

(** ** Reset and the catalog *)

Lemma handleDragEnd_blocks s now result s' :
  handleDragEnd s now result = Ok s' -> blocks s' = blocks s.
Proof.
  unfold handleDragEnd. intros H.
  destruct (destination result); [|congruence].
  destruct (nth_error (blocks s) (index (source result))); [|discriminate].
  injection H as <-. reflexivity.
Qed.

Lemma deleteLogEntry_blocks s logId s' :
  deleteLogEntry s logId = Ok s' -> blocks s' = blocks s.
Proof.
  unfold deleteLogEntry. intros H.
  destruct (deleteLogEntry_graphUpdater (log s) logId (graphData s));
    simpl in H; [|discriminate].
  injection H as <-. reflexivity.
Qed.

Lemma reachable_blocks clock s :
  reachableWith clock s -> blocks s = initialBlocks.
Proof.
  induction 1 as [|s now block _ IH _ _|s now result s' _ IH _ Hd
                  |s logId s' _ IH Hd|s _ IH].
  - reflexivity.
  - exact IH.
  - rewrite (handleDragEnd_blocks _ _ _ _ Hd). exact IH.
  - rewrite (deleteLogEntry_blocks _ _ _ Hd). exact IH.
  - exact IH.
Qed.

(** C7: [resetAll] empties the log and the graph data and keeps the catalog;
    no handler changes the catalog, so in every reachable state it is still
    [initialBlocks]. *)
Theorem catalog_frame :
  (forall s, log (resetAll s) = [] /\ graphData (resetAll s) = []
             /\ blocks (resetAll s) = blocks s)
  /\ (forall s now block, blocks (addToGraph s now block) = blocks s)
  /\ (forall s now result s',
        handleDragEnd s now result = Ok s' -> blocks s' = blocks s)
  /\ (forall s logId s',
        deleteLogEntry s logId = Ok s' -> blocks s' = blocks s)
  /\ (forall s, reachable s -> blocks s = initialBlocks).
Proof.
  split; [intros s; repeat split|].
  split; [reflexivity|].
  split; [exact handleDragEnd_blocks|].
  split; [exact deleteLogEntry_blocks|].
  intros s. apply reachable_blocks.
Qed.

Lemma catalog_frame_witness :
  blocks twiceSameTime = initialBlocks
  /\ (deleteLogEntry twiceSameTime 1000
      = Ok {| blocks := initialBlocks;
              graphData := [GraphBlock.mk "1" "Warm-up" 2 1];
              log := [] |}).
Proof.
  split.
  - apply (proj2 (proj2 (proj2 (proj2 catalog_frame)))).
    apply twiceSameTime_reachable.
  - reflexivity.
Defined.

(** ** Adding a workout *)

Lemma find_content_some name (g : list GraphBlock.t) :
  (exists r, In r g /\ GraphBlock.content r = name) ->
  exists r, find (fun b => String.eqb (GraphBlock.content b) name) g = Some r.
Proof.
  intros [r [Hin Hname]].
  destruct (find _ g) as [r'|] eqn:Hfind; [exists r'; reflexivity|].
  exfalso. apply (find_none _ _ Hfind) in Hin.
  rewrite Hname, String.eqb_refl in Hin. discriminate.
Qed.

Lemma find_content_none name (g : list GraphBlock.t) :
  (forall r, In r g -> GraphBlock.content r <> name) ->
  find (fun b => String.eqb (GraphBlock.content b) name) g = None.
Proof.
  intros Hall. destruct (find _ g) as [r|] eqn:Hfind; [|reflexivity].
  apply find_some in Hfind. destruct Hfind as [Hin Heq].
  apply String.eqb_eq in Heq. exfalso. exact (Hall r Hin Heq).
Qed.

(** C5: for a block of the catalog, a completed drag-drop of the item at its
    index and a click on it run the same transition [addToGraph].  That
    transition appends one entry with the block's [content] and [km] at the
    tail of the log and keeps the catalog; when a record of that name
    exists, the graph data is the old one with the count of the records of
    that name incremented by 1 and every other record as it was, and
    otherwise it is the old one followed by a new record with count 1 that
    copies the block's fields. *)
Theorem addWorkout_effect :
  forall (s : State) (now : Z) (i : nat) (block : Block.t)
         (src : string) (dest : DraggableLocation),
    nth_error (blocks s) i = Some block ->
    let s' := addToGraph s now block in
    handleDragEnd s now
      {| source := {| droppableId := src; index := i |};
         destination := Some dest |} = Ok s'
    /\ log s' = log s
                ++ [LogEntry.mk now (Block.content block) (Block.km block)]
    /\ blocks s' = blocks s
    /\ ((exists r, In r (graphData s)
                   /\ GraphBlock.content r = Block.content block) ->
        graphData s'
        = map (fun r =>
                 if String.eqb (GraphBlock.content r) (Block.content block)
                 then GraphBlock.mk (GraphBlock.id r) (GraphBlock.content r)
                        (GraphBlock.km r) (GraphBlock.count r + 1)
                 else r)
              (graphData s))
    /\ ((forall r, In r (graphData s) ->
                   GraphBlock.content r <> Block.content block) ->
        graphData s'
        = graphData s
          ++ [GraphBlock.mk (Block.id block) (Block.content block)
                (Block.km block) 1]).
Proof.
  intros s now i block src dest Hnth s'.
  split.
  { unfold handleDragEnd. simpl. rewrite Hnth. reflexivity. }
  split; [reflexivity|].
  split; [reflexivity|].
  split.
  - intros Hex. apply find_content_some in Hex. destruct Hex as [r Hfind].
    subst s'. simpl. unfold addToGraph_updater. rewrite Hfind. reflexivity.
  - intros Hnone. apply find_content_none in Hnone.
    subst s'. simpl. unfold addToGraph_updater. rewrite Hnone. reflexivity.
Qed.

Lemma addWorkout_effect_witness :
  nth_error (blocks oneAdded) 0 = Some warmUp
  /\ handleDragEnd oneAdded 2000
       {| source := {| droppableId := "workoutBlocks"; index := 0 |};
          destination := Some {| droppableId := "workoutBlocks"; index := 2 |} |}
     = Ok (addToGraph oneAdded 2000 warmUp)
  /\ graphData (addToGraph oneAdded 2000 warmUp)
     = [GraphBlock.mk "1" "Warm-up" 2 2].
Proof.
  assert (Hnth : nth_error (blocks oneAdded) 0 = Some warmUp) by reflexivity.
  pose proof (addWorkout_effect oneAdded 2000 0 warmUp "workoutBlocks"
                {| droppableId := "workoutBlocks"; index := 2 |} Hnth) as H.
  split; [exact Hnth|].
  split; [exact (proj1 H)|].
  reflexivity.
Defined.

(** ** Identity tokens *)

(** C3: two clicks that read the same value of [Date.now()] leave two log
    entries with the same [id]: the token is the clock reading and nothing
    else. *)
Theorem same_clock_reading_duplicates_token :
  reachable twoBlocksSameTime
  /\ log twoBlocksSameTime
     = [LogEntry.mk 1000 "Warm-up" 2; LogEntry.mk 1000 "Active" 5]
  /\ ~ uniqueTokens twoBlocksSameTime.
Proof.
  split; [apply twoBlocksSameTime_reachable|].
  split; [reflexivity|].
  unfold uniqueTokens. simpl. intros Hnd.
  inversion Hnd as [|x l Hnotin _]. apply Hnotin. left. reflexivity.
Qed.

(** ** The count invariant *)

(** C1: two clicks on Warm-up that read the clock as 1000, then one press of
    Delete on an entry with token 1000.  The filter removes both entries,
    the record is decremented once: the reachable state that results has an
    empty log and a Warm-up record of count 1. *)
Theorem count_invariant_broken_by_duplicate_token :
  exists s,
    deleteLogEntry twiceSameTime 1000 = Ok s
    /\ reachable s
    /\ log s = []
    /\ graphData s = [GraphBlock.mk "1" "Warm-up" 2 1]
    /\ ~ countsMatchLog s.
Proof.
  exists {| blocks := initialBlocks;
            graphData := [GraphBlock.mk "1" "Warm-up" 2 1];
            log := [] |}.
  split; [reflexivity|].
  split.
  { apply (reach_delete _ twiceSameTime 1000);
      [apply twiceSameTime_reachable | reflexivity]. }
  split; [reflexivity|].
  split; [reflexivity|].
  unfold countsMatchLog. simpl. intros Hall.
  inversion Hall as [|r l Hcount _]. simpl in Hcount. discriminate Hcount.
Qed.

(** ** Reset against deleting every entry *)

(** C6: in the reachable state with two Warm-up entries of token 1000,
    [resetAll] empties log and graph data.  Deleting the entries one at a
    time does not: the first call removes both entries and leaves a Warm-up
    record of count 1, so pressing Delete until the log is empty ends with
    that record, and a second call with the token of the second entry
    raises. *)
Theorem reset_differs_from_deleting_each :
  reachable twiceSameTime
  /\ map LogEntry.id (log twiceSameTime) = [1000; 1000]
  /\ resetAll twiceSameTime
     = {| blocks := initialBlocks; graphData := []; log := [] |}
  /\ deleteFirst (List.length (log twiceSameTime)) twiceSameTime
     = Ok {| blocks := initialBlocks;
             graphData := [GraphBlock.mk "1" "Warm-up" 2 1];
             log := [] |}
  /\ deleteEach (map LogEntry.id (log twiceSameTime)) twiceSameTime
     = Throw TypeError.
Proof.
  split; [apply twiceSameTime_reachable|].
  repeat split; reflexivity.
Qed.

(** ** Deleting a token that is in the log *)

Lemma filter_split_length {A : Type} (p : A -> bool) (l : list A) :
  (List.length (filter (fun a => negb (p a)) l) + List.length (filter p l)
   = List.length l)%nat.
Proof.
  induction l as [|a l IH]; simpl; [reflexivity|].
  destruct (p a); simpl; lia.
Qed.

Lemma occurrences_find logId (l : list LogEntry.t) :
  (1 <= occurrences logId l)%nat ->
  exists entry, find (fun e => LogEntry.id e =? logId) l = Some entry.
Proof.
  unfold occurrences. induction l as [|e l IH]; simpl; [lia|].
  destruct (LogEntry.id e =? logId); [intros _; exists e; reflexivity|].
  exact IH.
Qed.

Lemma occurrences_zero_filter logId (l : list LogEntry.t) :
  occurrences logId l = 0%nat ->
  filter (fun e => negb (LogEntry.id e =? logId)) l = l.
Proof.
  unfold occurrences. induction l as [|e l IH]; simpl; [reflexivity|].
  destruct (LogEntry.id e =? logId); simpl; [discriminate|].
  intros H. f_equal. exact (IH H).
Qed.

(** With a single bearer of the token, [find] locates it and the filter
    takes out that position only. *)
Lemma single_occurrence logId (l : list LogEntry.t) :
  occurrences logId l = 1%nat ->
  exists entry l1 l2,
    find (fun e => LogEntry.id e =? logId) l = Some entry
    /\ LogEntry.id entry = logId
    /\ l = l1 ++ entry :: l2
    /\ filter (fun e => negb (LogEntry.id e =? logId)) l = l1 ++ l2.
Proof.
  induction l as [|e l IH]; [discriminate|].
  unfold occurrences. simpl.
  destruct (Z.eqb_spec (LogEntry.id e) logId) as [Heq|Hne]; simpl.
  - intros H. exists e, [], l. repeat split; [exact Heq|].
    simpl. apply occurrences_zero_filter. unfold occurrences. lia.
  - intros H. destruct (IH H) as [entry [l1 [l2 [Hf [Hid [Hl Hfl]]]]]].
    exists entry, (e :: l1), l2. repeat split; try assumption.
    + simpl. f_equal. exact Hl.
    + simpl. f_equal. exact Hfl.
Qed.

Lemma decrement_by_one c (g : list GraphBlock.t) :
  Forall (fun r => 1 <= GraphBlock.count r) g ->
  filter (fun block => 0 <? GraphBlock.count block) (map (decrementNamed c) g)
  = filter (fun r => negb (GraphBlock.count r =? 0))
      (map (fun r => if String.eqb (GraphBlock.content r) c
                     then GraphBlock.withCount r (GraphBlock.count r - 1)
                     else r) g).
Proof.
  induction 1 as [|r g Hr _ IH]; simpl; [reflexivity|].
  rewrite IH. unfold decrementNamed.
  destruct (String.eqb (GraphBlock.content r) c); simpl.
  - destruct (Z.ltb_spec 1 (GraphBlock.count r)) as [Hgt|Hle]; simpl.
    + destruct (Z.ltb_spec 0 (GraphBlock.count r - 1));
        destruct (Z.eqb_spec (GraphBlock.count r - 1) 0);
        try lia; reflexivity.
    + destruct (Z.eqb_spec (GraphBlock.count r - 1) 0); try lia; reflexivity.
  - destruct (Z.ltb_spec 0 (GraphBlock.count r));
      destruct (Z.eqb_spec (GraphBlock.count r) 0); try lia; reflexivity.
Qed.

Lemma decrement_no_match c (g : list GraphBlock.t) :
  (forall r, In r g -> GraphBlock.content r <> c) ->
  Forall (fun r => 1 <= GraphBlock.count r) g ->
  filter (fun block => 0 <? GraphBlock.count block) (map (decrementNamed c) g)
  = g.
Proof.
  intros Hno Hpos. induction Hpos as [|r g Hr _ IH]; simpl; [reflexivity|].
  assert (Hsame : decrementNamed c r = r).
  { unfold decrementNamed.
    destruct (String.eqb_spec (GraphBlock.content r) c) as [Heq|Hne];
      [|reflexivity].
    exfalso. exact (Hno r (or_introl eq_refl) Heq). }
  rewrite Hsame.
  destruct (Z.ltb_spec 0 (GraphBlock.count r)); [|lia].
  f_equal. apply IH. intros r' Hin. apply Hno. right. exact Hin.
Qed.

(** A press on a Delete button of the current render whose token exactly
    one log entry bears, in a state whose records all have a count of at
    least 1: [deleteLogEntry] returns a state whose log is the old one
    without that entry, the others in their order, and whose graph data is
    the old one with the count of the records named like the located entry
    (located in the log of before the removal) decremented by 1 and the
    records that reach 0 removed; when no record has that name the graph
    data is unchanged. *)
Theorem deleteLogEntry_single_entry :
  forall (s : State) (logId : Z),
    occurrences logId (log s) = 1%nat ->
    Forall (fun r => 1 <= GraphBlock.count r) (graphData s) ->
    exists entry s',
      find (fun e => LogEntry.id e =? logId) (log s) = Some entry
      /\ deleteLogEntry s logId = Ok s'
      /\ removesExactly entry (log s) (log s')
      /\ blocks s' = blocks s
      /\ graphData s'
         = filter (fun r => negb (GraphBlock.count r =? 0))
             (map (fun r =>
                     if String.eqb (GraphBlock.content r) (LogEntry.content entry)
                     then GraphBlock.withCount r (GraphBlock.count r - 1)
                     else r)
                  (graphData s))
      /\ ((forall r, In r (graphData s) ->
                     GraphBlock.content r <> LogEntry.content entry) ->
          graphData s' = graphData s).
Proof.
  intros s logId Hone Hpos.
  destruct (single_occurrence _ _ Hone) as [entry [l1 [l2 [Hf [_ [Hl Hfl]]]]]].
  exists entry. eexists.
  split; [exact Hf|].
  split; [apply deleteLogEntry_found; exact Hf|].
  simpl. split; [exists l1, l2; split; assumption|].
  split; [reflexivity|].
  split; [apply decrement_by_one; exact Hpos|].
  intros Hno. apply decrement_no_match; assumption.
Qed.

Lemma deleteLogEntry_single_entry_witness :
  occurrences 1000 (log oneAdded) = 1%nat
  /\ Forall (fun r => 1 <= GraphBlock.count r) (graphData oneAdded)
  /\ exists entry s',
       find (fun e => LogEntry.id e =? 1000) (log oneAdded) = Some entry
       /\ deleteLogEntry oneAdded 1000 = Ok s'
       /\ graphData s'
          = filter (fun r => negb (GraphBlock.count r =? 0))
              (map (fun r =>
                      if String.eqb (GraphBlock.content r)
                           (LogEntry.content entry)
                      then GraphBlock.withCount r (GraphBlock.count r - 1)
                      else r)
                   (graphData oneAdded)).
Proof.
  assert (H1 : occurrences 1000 (log oneAdded) = 1%nat) by reflexivity.
  assert (H2 : Forall (fun r => 1 <= GraphBlock.count r) (graphData oneAdded)).
  { repeat constructor. simpl. lia. }
  split; [exact H1|]. split; [exact H2|].
  destruct (deleteLogEntry_single_entry oneAdded 1000 H1 H2)
    as [entry [s' [Hf [Hd [_ [_ [Hg _]]]]]]].
  exists entry, s'. repeat split; assumption.
Defined.

(** C4: in the reachable state with a Warm-up and an Active entry that both
    got the token 1000, [deleteLogEntry(1000)], which is what the Delete
    button of either entry calls, locates the Warm-up entry and empties the
    log: the Active entry goes too, which is not removing exactly the
    located entry, and only the Warm-up record is taken away while the
    Active record keeps count 1. *)
Lemma deleteLogEntry_removes_other_entry :
  find (fun e => LogEntry.id e =? 1000) (log twoBlocksSameTime)
  = Some (LogEntry.mk 1000 "Warm-up" 2)
  /\ deleteLogEntry twoBlocksSameTime 1000
     = Ok {| blocks := initialBlocks;
             graphData := [GraphBlock.mk "2" "Active" 5 1];
             log := [] |}
  /\ ~ removesExactly (LogEntry.mk 1000 "Warm-up" 2)
         (log twoBlocksSameTime) [].
Proof.
  split; [reflexivity|]. split; [reflexivity|].
  intros [l1 [l2 [Hbefore Hafter]]].
  symmetry in Hafter. apply app_eq_nil in Hafter. destruct Hafter as [-> ->].
  discriminate Hbefore.
Qed.

(** ** Several entries with one token *)

(** C9: when at least two log entries bear the token, one call of
    [deleteLogEntry] returns a state whose log has lost every one of them
    and nothing else, while in the graph data every surviving record is
    either an old record of another name, unchanged, or a record named like
    the first bearer with its count lowered by exactly 1. *)
Theorem deleteLogEntry_duplicate_token :
  forall (s : State) (logId : Z),
    (2 <= occurrences logId (log s))%nat ->
    exists entry s',
      find (fun e => LogEntry.id e =? logId) (log s) = Some entry
      /\ deleteLogEntry s logId = Ok s'
      /\ log s' = filter (fun e => negb (LogEntry.id e =? logId)) (log s)
      /\ (forall e, In e (log s') <-> In e (log s) /\ LogEntry.id e <> logId)
      /\ (List.length (log s') + occurrences logId (log s)
          = List.length (log s))%nat
      /\ (forall r', In r' (graphData s') ->
            (In r' (graphData s)
             /\ GraphBlock.content r' <> LogEntry.content entry)
            \/ (exists r, In r (graphData s)
                  /\ GraphBlock.content r = LogEntry.content entry
                  /\ r' = GraphBlock.withCount r (GraphBlock.count r - 1)))
      /\ (forall r, In r (graphData s) ->
            GraphBlock.content r = LogEntry.content entry ->
            1 < GraphBlock.count r ->
            In (GraphBlock.withCount r (GraphBlock.count r - 1)) (graphData s'))
      /\ (forall r, In r (graphData s) ->
            GraphBlock.content r = LogEntry.content entry ->
            GraphBlock.count r = 1 ->
            ~ In (GraphBlock.withCount r 0) (graphData s'))
      /\ (forall r, In r (graphData s) ->
            GraphBlock.content r <> LogEntry.content entry ->
            0 < GraphBlock.count r ->
            In r (graphData s')).
Proof.
  intros s logId Htwo.
  destruct (occurrences_find logId (log s)) as [entry Hf]; [lia|].
  exists entry. eexists.
  split; [exact Hf|].
  split; [apply deleteLogEntry_found; exact Hf|].
  simpl. split; [reflexivity|].
  split.
  { intros e. rewrite filter_In, negb_true_iff, Z.eqb_neq. tauto. }
  split; [apply filter_split_length|].
  split.
  { intros r' Hin. apply filter_In in Hin. destruct Hin as [Hin Hpos].
    apply in_map_iff in Hin. destruct Hin as [r [Hr Hin]].
    apply Z.ltb_lt in Hpos. subst r'. unfold decrementNamed in *.
    destruct (String.eqb_spec (GraphBlock.content r) (LogEntry.content entry))
      as [Heq|Hne].
    - right. exists r. split; [exact Hin|]. split; [exact Heq|].
      simpl in Hpos.
      destruct (Z.ltb_spec 1 (GraphBlock.count r)); [reflexivity|lia].
    - left. split; assumption. }
  split.
  { intros r Hin Heq Hgt. apply filter_In. split.
    - apply in_map_iff. exists r. split; [|exact Hin].
      unfold decrementNamed. rewrite Heq, String.eqb_refl.
      destruct (Z.ltb_spec 1 (GraphBlock.count r)); [reflexivity|lia].
    - simpl. apply Z.ltb_lt. lia. }
  split.
  { intros r _ _ _ Hin. apply filter_In in Hin. destruct Hin as [_ Hpos].
    simpl in Hpos. discriminate Hpos. }
  intros r Hin Hne Hpos. apply filter_In. split.
  - apply in_map_iff. exists r. split; [|exact Hin].
    unfold decrementNamed.
    destruct (String.eqb_spec (GraphBlock.content r) (LogEntry.content entry));
      [contradiction|reflexivity].
  - apply Z.ltb_lt. exact Hpos.
Qed.

Lemma deleteLogEntry_duplicate_token_witness :
  (2 <= occurrences 1000 (log twiceSameTime))%nat
  /\ exists entry s',
       find (fun e => LogEntry.id e =? 1000) (log twiceSameTime) = Some entry
       /\ deleteLogEntry twiceSameTime 1000 = Ok s'
       /\ log s'
          = filter (fun e => negb (LogEntry.id e =? 1000)) (log twiceSameTime).
Proof.
  assert (H : (2 <= occurrences 1000 (log twiceSameTime))%nat).
  { apply Nat.leb_le. reflexivity. }
  split; [exact H|].
  destruct (deleteLogEntry_duplicate_token twiceSameTime 1000 H)
    as [entry [s' [Hf [Hd [Hl _]]]]].
  exists entry, s'. repeat split; assumption.
Defined.

(** ** The chart *)

Lemma mapIndexFrom_length {A B : Type} (f : A -> nat -> B) (i : nat) (l : list A) :
  List.length (mapIndexFrom f i l) = List.length l.
Proof.
  revert i. induction l as [|a l IH]; intros i; simpl; [reflexivity|].
  rewrite IH. reflexivity.
Qed.

Lemma mapIndexFrom_nth {A B : Type} (f : A -> nat -> B) (l : list A) :
  forall i n a,
    nth_error l n = Some a ->
    nth_error (mapIndexFrom f i l) n = Some (f a (i + n)%nat).
Proof.
  induction l as [|x l IH]; intros i n a Hn.
  - destruct n; discriminate Hn.
  - destruct n as [|n]; simpl in *.
    + injection Hn as ->. rewrite Nat.add_0_r. reflexivity.
    + rewrite (IH (S i) n a Hn). f_equal. f_equal. lia.
Qed.

Lemma mapIndexFrom_position {A B : Type} (f : nat -> B) (l1 l2 : list A) :
  forall i,
    List.length l1 = List.length l2 ->
    mapIndexFrom (fun _ n => f n) i l1 = mapIndexFrom (fun _ n => f n) i l2.
Proof.
  revert l2. induction l1 as [|a l1 IH]; intros [|b l2] i Hlen;
    simpl in *; try discriminate; [reflexivity|].
  f_equal. apply IH. lia.
Qed.

Lemma decrementNamed_content c r :
  GraphBlock.content (decrementNamed c r) = GraphBlock.content r.
Proof.
  unfold decrementNamed.
  destruct (String.eqb (GraphBlock.content r) c); reflexivity.
Qed.

Lemma labels_increment name (g : list GraphBlock.t) :
  map GraphBlock.content
    (map (fun b => if String.eqb (GraphBlock.content b) name
                   then GraphBlock.withCount b (GraphBlock.count b + 1)
                   else b) g)
  = map GraphBlock.content g.
Proof.
  rewrite map_map. apply map_ext. intros b.
  destruct (String.eqb (GraphBlock.content b) name); reflexivity.
Qed.

Lemma labels_decrement c (g : list GraphBlock.t) :
  subsequence
    (map GraphBlock.content
       (filter (fun block => 0 <? GraphBlock.count block)
          (map (decrementNamed c) g)))
    (map GraphBlock.content g).
Proof.
  induction g as [|r g IH]; simpl; [constructor|].
  destruct (0 <? GraphBlock.count (decrementNamed c r)); simpl.
  - rewrite decrementNamed_content. apply subseq_keep. exact IH.
  - apply subseq_skip. exact IH.
Qed.

(** What a successful [deleteLogEntry] did. *)
Lemma deleteLogEntry_ok s logId s' :
  deleteLogEntry s logId = Ok s' ->
  (graphData s = [] /\ graphData s' = []
   /\ find (fun e => LogEntry.id e =? logId) (log s) = None)
  \/ (exists entry,
        find (fun e => LogEntry.id e =? logId) (log s) = Some entry
        /\ graphData s'
           = filter (fun block => 0 <? GraphBlock.count block)
               (map (decrementNamed (LogEntry.content entry)) (graphData s))).
Proof.
  intros Hd.
  destruct (find (fun e => LogEntry.id e =? logId) (log s)) as [entry|] eqn:Hf.
  - right. exists entry. split; [reflexivity|].
    rewrite (deleteLogEntry_found _ _ _ Hf) in Hd. injection Hd as <-.
    reflexivity.
  - left. unfold deleteLogEntry in Hd.
    rewrite (graphUpdater_absent _ _ _ Hf) in Hd.
    destruct (graphData s); [|discriminate Hd].
    simpl in Hd. injection Hd as <-. repeat split.
Qed.

(** C8: [chartData] is a function of the graph data alone.  Its labels,
    counts and colours have the length of the graph data; at every position
    the label and the count are those of the record at that position and
    the colour is [hsl] of the position, so two graph data of equal length
    get the same colours.  The order of the records is the order of their
    creation: [addToGraph] puts a new record last and leaves the labels as
    they are when it increments, and a successful [deleteLogEntry] keeps
    the remaining labels in their order.  The graph section shows the
    "No workouts added yet." paragraph exactly when the graph data is empty,
    and the bar chart of [chartData] otherwise. *)
Theorem chart_projection :
  (forall g,
     List.length (labels (chartData g)) = List.length g
     /\ List.length (data (chartData g)) = List.length g
     /\ List.length (backgroundColor (chartData g)) = List.length g)
  /\ (forall g i r,
        nth_error g i = Some r ->
        nth_error (labels (chartData g)) i = Some (GraphBlock.content r)
        /\ nth_error (data (chartData g)) i = Some (GraphBlock.count r)
        /\ nth_error (backgroundColor (chartData g)) i = Some (hsl i))
  /\ (forall g1 g2,
        List.length g1 = List.length g2 ->
        backgroundColor (chartData g1) = backgroundColor (chartData g2))
  /\ (forall block g,
        labels (chartData (addToGraph_updater block g))
        = if existsb (fun b => String.eqb (GraphBlock.content b)
                                 (Block.content block)) g
          then labels (chartData g)
          else labels (chartData g) ++ [Block.content block])
  /\ (forall s logId s',
        deleteLogEntry s logId = Ok s' ->
        subsequence (labels (chartData (graphData s')))
                    (labels (chartData (graphData s))))
  /\ (forall s, graphData s = [] -> renderGraphSection s = NoWorkoutsAddedYet)
  /\ (forall s, graphData s <> [] ->
                renderGraphSection s = Bar (chartData (graphData s)))
  /\ (forall s1 s2, graphData s1 = graphData s2 ->
                    renderGraphSection s1 = renderGraphSection s2).
Proof.
  split.
  { intros g. unfold chartData, mapIndex. simpl.
    rewrite !length_map, mapIndexFrom_length. repeat split. }
  split.
  { intros g i r Hn. unfold chartData, mapIndex. simpl.
    rewrite !nth_error_map, Hn. simpl.
    rewrite (mapIndexFrom_nth _ _ 0%nat i r Hn). repeat split. }
  split.
  { intros g1 g2 Hlen. unfold chartData, mapIndex. simpl.
    apply (mapIndexFrom_position hsl). exact Hlen. }
  split.
  { intros block g. unfold chartData, addToGraph_updater. simpl.
    destruct (find _ g) as [r|] eqn:Hf.
    - assert (He : existsb (fun b => String.eqb (GraphBlock.content b)
                                       (Block.content block)) g = true).
      { apply find_some in Hf. apply existsb_exists. exists r. exact Hf. }
      rewrite He. apply labels_increment.
    - assert (He : existsb (fun b => String.eqb (GraphBlock.content b)
                                       (Block.content block)) g = false).
      { apply not_true_is_false. intros He. apply existsb_exists in He.
        destruct He as [r [Hin Hr]].
        rewrite (find_none _ _ Hf r Hin) in Hr. discriminate Hr. }
      rewrite He, map_app. reflexivity. }
  split.
  { intros s logId s' Hd. unfold chartData. simpl.
    destruct (deleteLogEntry_ok _ _ _ Hd) as [[Hg [Hg' _]]|[entry [_ Hg']]].
    - rewrite Hg, Hg'. constructor.
    - rewrite Hg'. apply labels_decrement. }
  split.
  { intros s Hg. unfold renderGraphSection. rewrite Hg. reflexivity. }
  split.
  { intros s Hg. unfold renderGraphSection.
    destruct (graphData s); [contradiction|reflexivity]. }
  intros s1 s2 Hg. unfold renderGraphSection. rewrite Hg. reflexivity.
Qed.

Lemma chart_projection_witness :
  nth_error (graphData twoBlocksSameTime) 1
  = Some (GraphBlock.mk "2" "Active" 5 1)
  /\ nth_error (labels (chartData (graphData twoBlocksSameTime))) 1
     = Some "Active"%string
  /\ nth_error (data (chartData (graphData twoBlocksSameTime))) 1 = Some 1
  /\ nth_error (backgroundColor (chartData (graphData twoBlocksSameTime))) 1
     = Some "hsl(60, 50%, 60%)"%string
  /\ renderGraphSection initialState = NoWorkoutsAddedYet.
Proof.
  assert (Hn : nth_error (graphData twoBlocksSameTime) 1
               = Some (GraphBlock.mk "2" "Active" 5 1)) by reflexivity.
  destruct chart_projection as [_ [Hnth [_ [_ [_ [Hempty _]]]]]].
  destruct (Hnth _ _ _ Hn) as [Hl [Hd Hc]].
  split; [exact Hn|].
  split; [exact Hl|].
  split; [exact Hd|].
  split; [exact Hc|].
  apply Hempty. reflexivity.
Defined.

(** ** The invariant when tokens do not collide *)

Lemma tally_app name (l1 l2 : list LogEntry.t) :
  tally name (l1 ++ l2) = (tally name l1 + tally name l2)%nat.
Proof. unfold tally. rewrite filter_app, length_app. reflexivity. Qed.

Lemma tally_cons name e (l : list LogEntry.t) :
  tally name (e :: l)
  = ((if String.eqb (LogEntry.content e) name then 1 else 0) + tally name l)%nat.
Proof.
  unfold tally. simpl.
  destruct (String.eqb (LogEntry.content e) name); reflexivity.
Qed.

Lemma tally_absent name (l : list LogEntry.t) :
  (forall e, In e l -> LogEntry.content e <> name) -> tally name l = 0%nat.
Proof.
  induction l as [|e l IH]; intros Hno; [reflexivity|].
  rewrite tally_cons.
  destruct (String.eqb_spec (LogEntry.content e) name) as [Heq|_].
  - exfalso. exact (Hno e (or_introl eq_refl) Heq).
  - apply IH. intros e' Hin. apply Hno. right. exact Hin.
Qed.

Lemma tally_present e (l : list LogEntry.t) :
  In e l -> (1 <= tally (LogEntry.content e) l)%nat.
Proof.
  induction l as [|e' l IH]; intros Hin; [contradiction|].
  rewrite tally_cons. destruct Hin as [->|Hin].
  - rewrite String.eqb_refl. lia.
  - specialize (IH Hin). lia.
Qed.

Lemma tally_remove name e (l1 l2 : list LogEntry.t) :
  tally name (l1 ++ e :: l2)
  = ((if String.eqb (LogEntry.content e) name then 1 else 0)
     + tally name (l1 ++ l2))%nat.
Proof. rewrite !tally_app, tally_cons. lia. Qed.

Lemma unique_token_occurs_once logId entry (l : list LogEntry.t) :
  NoDup (map LogEntry.id l) ->
  find (fun e => LogEntry.id e =? logId) l = Some entry ->
  occurrences logId l = 1%nat.
Proof.
  unfold occurrences. induction l as [|e l IH]; simpl; [discriminate|].
  intros Hnd Hf. apply NoDup_cons_iff in Hnd. destruct Hnd as [Hnotin Hnd].
  destruct (Z.eqb_spec (LogEntry.id e) logId) as [Heq|Hne]; simpl.
  - f_equal. destruct (filter _ l) as [|e' l'] eqn:Hfl; [reflexivity|].
    exfalso. assert (Hin : In e' (filter (fun e => LogEntry.id e =? logId) l)).
    { rewrite Hfl. left. reflexivity. }
    apply filter_In in Hin. destruct Hin as [Hin He'].
    apply Z.eqb_eq in He'. apply Hnotin. rewrite Heq, <- He'.
    apply in_map. exact Hin.
  - apply IH; assumption.
Qed.

Lemma find_none_filter logId (l : list LogEntry.t) :
  find (fun e => LogEntry.id e =? logId) l = None ->
  filter (fun e => negb (LogEntry.id e =? logId)) l = l.
Proof.
  induction l as [|e l IH]; simpl; [reflexivity|].
  destruct (LogEntry.id e =? logId); simpl; [discriminate|].
  intros Hf. f_equal. exact (IH Hf).
Qed.

Lemma deleteLogEntry_ok_log s logId s' :
  deleteLogEntry s logId = Ok s' ->
  log s' = filter (fun e => negb (LogEntry.id e =? logId)) (log s).
Proof.
  unfold deleteLogEntry. intros H.
  destruct (deleteLogEntry_graphUpdater (log s) logId (graphData s));
    simpl in H; [|discriminate].
  injection H as <-. reflexivity.
Qed.

Lemma subsequence_In {A : Type} (a : A) (l l' : list A) :
  subsequence l l' -> In a l -> In a l'.
Proof.
  induction 1 as [|b l l' _ IH|b l l' _ IH]; intros Hin.
  - exact Hin.
  - right. exact (IH Hin).
  - destruct Hin as [->|Hin]; [left; reflexivity|right; exact (IH Hin)].
Qed.

Lemma subsequence_NoDup {A : Type} (l l' : list A) :
  subsequence l l' -> NoDup l' -> NoDup l.
Proof.
  induction 1 as [|b l l' _ IH|b l l' Hsub IH]; intros Hnd.
  - exact Hnd.
  - apply NoDup_cons_iff in Hnd. exact (IH (proj2 Hnd)).
  - apply NoDup_cons_iff in Hnd. destruct Hnd as [Hnotin Hnd].
    constructor; [|exact (IH Hnd)].
    intros Hin. apply Hnotin. exact (subsequence_In _ _ _ Hsub Hin).
Qed.

Lemma consistent_initial : consistent initialState.
Proof.
  constructor; simpl; try constructor.
  intros e [].
Qed.

Lemma consistent_reset s : consistent s -> consistent (resetAll s).
Proof.
  intros _. constructor; simpl; try constructor.
  intros e [].
Qed.

Lemma consistent_add s now block :
  consistent s -> freshClock s now -> consistent (addToGraph s now block).
Proof.
  intros [Htok Hnames Hcnt Hpos Hcov] Hfresh.
  assert (Hnew : forall name,
             tally name (addToLog_updater now block (log s))
             = (tally name (log s)
                + (if String.eqb (Block.content block) name then 1 else 0))%nat).
  { intros name. unfold addToLog_updater. rewrite tally_app, tally_cons.
    simpl. destruct (String.eqb (Block.content block) name); reflexivity. }
  destruct (find (fun b => String.eqb (GraphBlock.content b)
                             (Block.content block)) (graphData s))
    as [found|] eqn:Hf.
  - (* a record of that name exists: every such record is incremented *)
    apply find_some in Hf. destruct Hf as [Hfin Hfname].
    apply String.eqb_eq in Hfname.
    assert (Hg : graphData (addToGraph s now block)
                 = map (fun b =>
                          if String.eqb (GraphBlock.content b) (Block.content block)
                          then GraphBlock.withCount b (GraphBlock.count b + 1)
                          else b) (graphData s)).
    { simpl. unfold addToGraph_updater.
      destruct (find_content_some (Block.content block) (graphData s))
        as [r Hr]; [exists found; split; assumption|].
      rewrite Hr. reflexivity. }
    constructor.
    + unfold uniqueTokens. simpl. unfold addToLog_updater.
      rewrite map_app. apply NoDup_app; [exact Htok| |].
      * constructor; [intros []|constructor].
      * intros a Hin [Ha|[]]. simpl in Ha. subst a. exact (Hfresh Hin).
    + rewrite Hg, labels_increment. exact Hnames.
    + unfold countsMatchLog. rewrite Hg. apply Forall_map.
      refine (Forall_impl _ _ Hcnt). intros r Hr. simpl log. rewrite Hnew.
      destruct (String.eqb_spec (GraphBlock.content r) (Block.content block))
        as [Heq|Hne]; simpl.
      * rewrite Heq, String.eqb_refl, Hr, Heq. lia.
      * destruct (String.eqb_spec (Block.content block) (GraphBlock.content r))
          as [Heq'|_]; [congruence|]. rewrite Hr. lia.
    + rewrite Hg. apply Forall_map.
      refine (Forall_impl _ _ Hpos). intros r Hr.
      destruct (String.eqb (GraphBlock.content r) (Block.content block));
        simpl; lia.
    + intros e Hin. rewrite Hg. simpl in Hin. unfold addToLog_updater in Hin.
      apply in_app_iff in Hin.
      assert (Hkeep : forall r, In r (graphData s) ->
                exists r', In r' (map (fun b =>
                          if String.eqb (GraphBlock.content b) (Block.content block)
                          then GraphBlock.withCount b (GraphBlock.count b + 1)
                          else b) (graphData s))
                           /\ GraphBlock.content r' = GraphBlock.content r).
      { intros r Hr. eexists. split; [apply in_map; exact Hr|].
        destruct (String.eqb (GraphBlock.content r) (Block.content block));
          reflexivity. }
      destruct Hin as [Hin|[<-|[]]].
      * destruct (Hcov e Hin) as [r [Hr Hname]].
        destruct (Hkeep r Hr) as [r' [Hr' Hname']].
        exists r'. split; [exact Hr'|congruence].
      * destruct (Hkeep found Hfin) as [r' [Hr' Hname']].
        exists r'. split; [exact Hr'|]. simpl. congruence.
  - (* no record of that name: a new one is appended *)
    assert (Hg : graphData (addToGraph s now block)
                 = graphData s ++ [GraphBlock.ofBlock block 1]).
    { simpl. unfold addToGraph_updater. rewrite Hf. reflexivity. }
    assert (Hno : forall r, In r (graphData s) ->
                    GraphBlock.content r <> Block.content block).
    { intros r Hr Heq. pose proof (find_none _ _ Hf r Hr) as Hb.
      simpl in Hb. rewrite Heq, String.eqb_refl in Hb. discriminate Hb. }
    assert (Hzero : tally (Block.content block) (log s) = 0%nat).
    { apply tally_absent. intros e Hin Heq.
      destruct (Hcov e Hin) as [r [Hr Hname]].
      apply (Hno r Hr). congruence. }
    constructor.
    + unfold uniqueTokens. simpl. unfold addToLog_updater.
      rewrite map_app. apply NoDup_app; [exact Htok| |].
      * constructor; [intros []|constructor].
      * intros a Hin [Ha|[]]. simpl in Ha. subst a. exact (Hfresh Hin).
    + rewrite Hg, map_app. apply NoDup_app; [exact Hnames| |].
      * constructor; [intros []|constructor].
      * intros a Hin [Ha|[]]. simpl in Ha. subst a.
        apply in_map_iff in Hin. destruct Hin as [r [Hname Hr]].
        exact (Hno r Hr Hname).
    + unfold countsMatchLog. rewrite Hg. apply Forall_app. split.
      * unfold countsMatchLog in Hcnt. rewrite Forall_forall in Hcnt |- *.
        intros r Hr. simpl log. rewrite Hnew, (Hcnt r Hr).
        destruct (String.eqb_spec (Block.content block) (GraphBlock.content r))
          as [Heq|_]; [|lia].
        exfalso. apply (Hno r Hr). congruence.
      * constructor; [|constructor]. simpl log. rewrite Hnew. simpl.
        rewrite Hzero, String.eqb_refl. reflexivity.
    + rewrite Hg. apply Forall_app. split; [exact Hpos|].
      constructor; [simpl; lia|constructor].
    + intros e Hin. rewrite Hg. simpl in Hin. unfold addToLog_updater in Hin.
      apply in_app_iff in Hin. destruct Hin as [Hin|[<-|[]]].
      * destruct (Hcov e Hin) as [r [Hr Hname]].
        exists r. split; [apply in_app_iff; left; exact Hr|exact Hname].
      * exists (GraphBlock.ofBlock block 1).
        split; [apply in_app_iff; right; left; reflexivity|reflexivity].
Qed.

Lemma consistent_delete s logId s' :
  consistent s -> deleteLogEntry s logId = Ok s' -> consistent s'.
Proof.
  intros [Htok Hnames Hcnt Hpos Hcov] Hd.
  pose proof (deleteLogEntry_ok_log _ _ _ Hd) as Hlog.
  destruct (deleteLogEntry_ok _ _ _ Hd) as [[Hg [Hg' Hf]]|[entry [Hf Hg']]].
  - (* no entry bears the token and the graph is empty *)
    rewrite (find_none_filter _ _ Hf) in Hlog.
    constructor.
    + unfold uniqueTokens. rewrite Hlog. exact Htok.
    + rewrite Hg'. constructor.
    + unfold countsMatchLog. rewrite Hg'. constructor.
    + rewrite Hg'. constructor.
    + intros e Hin. rewrite Hlog in Hin.
      destruct (Hcov e Hin) as [r [Hr _]]. rewrite Hg in Hr. destruct Hr.
  - (* the single bearer of the token is removed *)
    pose proof (unique_token_occurs_once _ _ _ Htok Hf) as Hone.
    destruct (single_occurrence _ _ Hone)
      as [entry' [l1 [l2 [Hf' [_ [Hl Hfl]]]]]].
    rewrite Hf in Hf'. injection Hf' as <-.
    rewrite Hfl in Hlog.
    assert (Htally : forall name,
               tally name (log s)
               = ((if String.eqb (LogEntry.content entry) name then 1 else 0)
                  + tally name (log s'))%nat).
    { intros name. rewrite Hl, Hlog. apply tally_remove. }
    unfold countsMatchLog in Hcnt. rewrite Forall_forall in Hcnt, Hpos.
    assert (Hsurvive : forall r' ,
               In r' (graphData s') ->
               0 < GraphBlock.count r'
               /\ exists r, In r (graphData s)
                            /\ r' = decrementNamed (LogEntry.content entry) r).
    { intros r' Hin. rewrite Hg' in Hin. apply filter_In in Hin.
      destruct Hin as [Hin Hgt]. apply Z.ltb_lt in Hgt.
      apply in_map_iff in Hin. destruct Hin as [r [Hr Hin]].
      split; [exact Hgt|]. exists r. split; [exact Hin|]. symmetry. exact Hr. }
    constructor.
    + unfold uniqueTokens in *. rewrite Hlog. rewrite Hl in Htok.
      rewrite map_app in *. simpl in Htok.
      exact (NoDup_remove_1 _ _ _ Htok).
    + rewrite Hg'.
      exact (subsequence_NoDup _ _ (labels_decrement _ _) Hnames).
    + unfold countsMatchLog. rewrite Forall_forall. intros r' Hin.
      destruct (Hsurvive r' Hin) as [Hgt [r [Hr ->]]].
      pose proof (Hcnt r Hr) as Hc. specialize (Htally (GraphBlock.content r)).
      unfold decrementNamed in *.
      destruct (String.eqb_spec (GraphBlock.content r) (LogEntry.content entry))
        as [Heq|Hne]; simpl in *.
      * rewrite Heq, String.eqb_refl in Htally.
        destruct (Z.ltb_spec 1 (GraphBlock.count r)); [|lia].
        simpl. rewrite Heq in Hc |- *. lia.
      * destruct (String.eqb_spec (LogEntry.content entry) (GraphBlock.content r))
          as [Heq'|_]; [congruence|]. lia.
    + rewrite Forall_forall. intros r' Hin.
      destruct (Hsurvive r' Hin) as [Hgt _]. lia.
    + intros e Hin.
      assert (Hin0 : In e (log s)).
      { rewrite Hl. rewrite Hlog in Hin. apply in_app_iff in Hin.
        apply in_app_iff. destruct Hin; [left|right; right]; assumption. }
      destruct (Hcov e Hin0) as [r [Hr Hname]].
      exists (decrementNamed (LogEntry.content entry) r).
      split; [|rewrite decrementNamed_content; exact Hname].
      rewrite Hg'. apply filter_In. split; [apply in_map; exact Hr|].
      apply Z.ltb_lt. pose proof (Hpos r Hr) as Hp. pose proof (Hcnt r Hr) as Hc.
      pose proof (tally_present e (log s') Hin) as Hge.
      specialize (Htally (GraphBlock.content r)).
      unfold decrementNamed.
      destruct (String.eqb_spec (GraphBlock.content r) (LogEntry.content entry))
        as [Heq|Hne]; simpl; [|lia].
      rewrite Heq, String.eqb_refl in Htally. rewrite <- Hname, Heq in Hge.
      rewrite Heq in Hc.
      destruct (Z.ltb_spec 1 (GraphBlock.count r)); simpl; lia.
Qed.

(** With a clock that never returns a token still in the log, every
    reachable state is consistent. *)
Lemma fresh_clock_consistent s :
  reachableWith freshClock s -> consistent s.
Proof.
  induction 1 as [|s now block _ IH _ Hfresh|s now result s' _ IH Hfresh Hd
                  |s logId s' _ IH Hd|s _ IH].
  - exact consistent_initial.
  - exact (consistent_add _ _ _ IH Hfresh).
  - unfold handleDragEnd in Hd.
    destruct (destination result); [|injection Hd as <-; exact IH].
    destruct (nth_error (blocks s) (index (source result))); [|discriminate].
    injection Hd as <-. exact (consistent_add _ _ _ IH Hfresh).
  - exact (consistent_delete _ _ _ IH Hd).
  - exact (consistent_reset _ IH).
Qed.

(** The invariants of the specification hold in every state reached with
    such a clock: each record counts the entries of its name, no record has
    count 0, and tokens are unique. *)
Theorem fresh_clock_invariant :
  forall s,
    reachableWith freshClock s ->
    countsMatchLog s /\ noZeroCount s /\ uniqueTokens s.
Proof.
  intros s Hreach. destruct (fresh_clock_consistent s Hreach)
    as [Htok _ Hcnt Hpos _].
  split; [exact Hcnt|]. split; [|exact Htok].
  unfold noZeroCount. refine (Forall_impl _ _ Hpos). intros r Hr. lia.
Qed.

Lemma consistent_empty_log s :
  consistent s -> log s = [] -> graphData s = [].
Proof.
  intros [_ _ Hcnt Hpos _] Hlog.
  destruct (graphData s) as [|r g] eqn:Hg; [reflexivity|].
  unfold countsMatchLog in Hcnt. rewrite Hg, Hlog in Hcnt.
  apply Forall_inv in Hcnt. apply Forall_inv in Hpos.
  simpl in Hcnt. lia.
Qed.

Lemma deleteEach_consistent :
  forall (l : list LogEntry.t) (s : State),
    log s = l -> consistent s ->
    deleteEach (map LogEntry.id l) s = Ok (resetAll s).
Proof.
  induction l as [|e l IH]; intros s Hlog Hc.
  - simpl. f_equal. pose proof (consistent_empty_log s Hc Hlog) as Hg.
    destruct s as [b g lg]. simpl in *. subst. reflexivity.
  - simpl.
    assert (Hf : find (fun e0 => LogEntry.id e0 =? LogEntry.id e) (log s)
                 = Some e).
    { rewrite Hlog. simpl. rewrite Z.eqb_refl. reflexivity. }
    pose proof (deleteLogEntry_found _ _ _ Hf) as Hd. rewrite Hd. simpl.
    pose proof (consistent_delete _ _ _ Hc Hd) as Hc'.
    rewrite (IH _); [reflexivity| |exact Hc'].
    simpl. rewrite Hlog. simpl. rewrite Z.eqb_refl. simpl.
    apply occurrences_zero_filter.
    pose proof (unique_token_occurs_once _ _ _ (tokens_unique _ Hc) Hf) as Hone.
    unfold occurrences in *. rewrite Hlog in Hone. simpl in Hone.
    rewrite Z.eqb_refl in Hone. simpl in Hone. lia.
Qed.

(** In a consistent state, hence in every state reached with a clock that
    never returns a live token, deleting the entries one at a time by their
    tokens ends in the state [resetAll] gives. *)
Theorem deleteEach_is_reset :
  forall s,
    reachableWith freshClock s ->
    deleteEach (map LogEntry.id (log s)) s = Ok (resetAll s)
    /\ log (resetAll s) = [] /\ graphData (resetAll s) = [].
Proof.
  intros s Hreach. split; [|split; reflexivity].
  apply deleteEach_consistent; [reflexivity|].
  exact (fresh_clock_consistent s Hreach).
Qed.

(** ** The scenarios of the specification, with distinct clock readings *)

(** Warm-up twice, then Active once. *)
Example scenario_1 :
  addToGraph (addToGraph (addToGraph initialState 1000 warmUp) 1001 warmUp)
    1002 active
  = {| blocks := initialBlocks;
       graphData := [GraphBlock.mk "1" "Warm-up" 2 2;
                     GraphBlock.mk "2" "Active" 5 1];
       log := [LogEntry.mk 1000 "Warm-up" 2;
               LogEntry.mk 1001 "Warm-up" 2;
               LogEntry.mk 1002 "Active" 5] |}.
Proof. reflexivity. Qed.

(** Then the first Warm-up entry is deleted. *)
Example scenario_2 :
  deleteLogEntry
    {| blocks := initialBlocks;
       graphData := [GraphBlock.mk "1" "Warm-up" 2 2;
                     GraphBlock.mk "2" "Active" 5 1];
       log := [LogEntry.mk 1000 "Warm-up" 2;
               LogEntry.mk 1001 "Warm-up" 2;
               LogEntry.mk 1002 "Active" 5] |}
    1000
  = Ok {| blocks := initialBlocks;
          graphData := [GraphBlock.mk "1" "Warm-up" 2 1;
                        GraphBlock.mk "2" "Active" 5 1];
          log := [LogEntry.mk 1001 "Warm-up" 2;
                  LogEntry.mk 1002 "Active" 5] |}.
Proof. reflexivity. Qed.

(** Then the remaining Warm-up entry: its record disappears. *)
Example scenario_3 :
  deleteLogEntry
    {| blocks := initialBlocks;
       graphData := [GraphBlock.mk "1" "Warm-up" 2 1;
                     GraphBlock.mk "2" "Active" 5 1];
       log := [LogEntry.mk 1001 "Warm-up" 2;
               LogEntry.mk 1002 "Active" 5] |}
    1001
  = Ok {| blocks := initialBlocks;
          graphData := [GraphBlock.mk "2" "Active" 5 1];
          log := [LogEntry.mk 1002 "Active" 5] |}.
Proof. reflexivity. Qed.

(** The state of the first scenario is reached with a fresh clock, so the
    invariant theorems apply to it. *)
Example scenario_1_fresh :
  reachableWith freshClock
    (addToGraph (addToGraph (addToGraph initialState 1000 warmUp) 1001 warmUp)
       1002 active).
Proof.
  assert (Hin : forall s, blocks s = initialBlocks ->
                  In warmUp (blocks s) /\ In active (blocks s)).
  { intros s ->. simpl. tauto. }
  apply reach_click; [apply reach_click; [apply reach_click|..]|..];
    try apply reach_initial;
    try (apply Hin; reflexivity);
    unfold freshClock; simpl; intros H;
    repeat (destruct H as [H|H]; [discriminate H|]); exact H.
Qed.

(** ** Delete buttons of the current and of earlier renders *)

Lemma find_present logId (l : list LogEntry.t) :
  In logId (map LogEntry.id l) ->
  exists entry,
    find (fun e => LogEntry.id e =? logId) l = Some entry
    /\ In entry l /\ LogEntry.id entry = logId.
Proof.
  intros Hin. destruct (find (fun e => LogEntry.id e =? logId) l)
    as [entry|] eqn:Hf.
  - exists entry. apply find_some in Hf. destruct Hf as [He Hid].
    apply Z.eqb_eq in Hid. repeat split; assumption.
  - exfalso. apply in_map_iff in Hin. destruct Hin as [e [Hid He]].
    pose proof (find_none _ _ Hf e He) as Hb. simpl in Hb.
    rewrite Hid, Z.eqb_refl in Hb. discriminate Hb.
Qed.

Lemma filter_token_gone logId (l : list LogEntry.t) :
  ~ In logId
      (map LogEntry.id (filter (fun e => negb (LogEntry.id e =? logId)) l)).
Proof.
  intros Hin. apply in_map_iff in Hin. destruct Hin as [e [Hid He]].
  apply filter_In in He. destruct He as [_ Hb].
  rewrite Hid, Z.eqb_refl in Hb. discriminate Hb.
Qed.

(** The handler of the current render is the handler of render [s] called
    on state [s]. *)
Lemma deleteLogEntry_current s logId :
  deleteLogEntry s logId = deleteLogEntryOf s s logId.
Proof. reflexivity. Qed.

Lemma deleteLogEntryOf_found render s logId first :
  find (fun e => LogEntry.id e =? logId) (log render) = Some first ->
  deleteLogEntryOf render s logId
  = Ok {| blocks := blocks s;
          graphData :=
            filter (fun block => 0 <? GraphBlock.count block)
              (map (decrementNamed (LogEntry.content first)) (graphData s));
          log := filter (fun e => negb (LogEntry.id e =? logId)) (log s) |}.
Proof.
  intros Hfind. unfold deleteLogEntryOf.
  rewrite (graphUpdater_found _ _ _ _ Hfind). reflexivity.
Qed.

Lemma filter_shorter entry (l : list LogEntry.t) :
  In entry l ->
  (List.length (deleteLogEntry_logUpdater (LogEntry.id entry) l)
   < List.length l)%nat.
Proof.
  intros Hin. unfold deleteLogEntry_logUpdater.
  pose proof (filter_split_length
                (fun e => LogEntry.id e =? LogEntry.id entry) l) as Hlen.
  assert (Hone : (1 <= occurrences (LogEntry.id entry) l)%nat).
  { unfold occurrences.
    destruct (filter (fun e => LogEntry.id e =? LogEntry.id entry) l)
      as [|x l'] eqn:Hfl; [|simpl; lia].
    exfalso. assert (Hx : In entry []); [|exact Hx].
    rewrite <- Hfl. apply filter_In. split; [exact Hin|apply Z.eqb_refl]. }
  unfold occurrences in Hone. simpl in Hlen. lia.
Qed.

Lemma thenActive_reachable : reachable thenActive.
Proof.
  apply reach_click; [apply twiceSameTime_reachable | simpl; tauto | exact I].
Qed.

(** C2: Warm-up is added twice with clock reading 1000 and Active once with
    reading 2000; that state is reachable.  A press on Delete for token
    1000 removes both Warm-up entries and leaves the records Warm-up 1 and
    Active 1; the two items had the same key, and one of them stays on
    screen with the handler of the render that drew it.  Its token 1000 is
    no longer in the log.  A press on its Delete button does not raise and
    leaves the log as it is, but it is not a no-op: the Warm-up record is
    decremented again and disappears. *)
Theorem delete_of_absent_token_changes_records :
  reachable thenActive
  /\ deleteLogEntry thenActive 1000
     = Ok {| blocks := initialBlocks;
             graphData := [GraphBlock.mk "1" "Warm-up" 2 1;
                           GraphBlock.mk "2" "Active" 5 1];
             log := [LogEntry.mk 2000 "Active" 5] |}
  /\ ~ In 1000 (map LogEntry.id [LogEntry.mk 2000 "Active" 5])
  /\ deleteLogEntryOf thenActive
       {| blocks := initialBlocks;
          graphData := [GraphBlock.mk "1" "Warm-up" 2 1;
                        GraphBlock.mk "2" "Active" 5 1];
          log := [LogEntry.mk 2000 "Active" 5] |}
       1000
     = Ok {| blocks := initialBlocks;
             graphData := [GraphBlock.mk "2" "Active" 5 1];
             log := [LogEntry.mk 2000 "Active" 5] |}.
Proof.
  split; [apply thenActive_reachable|].
  split; [reflexivity|].
  split; [|reflexivity].
  simpl. intros [H|[]]. discriminate H.
Qed.

(** Every Delete button a render has drawn carries the token of an entry
    of that render's log, and pressing it never raises, whether the render
    is the current one or an earlier one and whatever the state has become:
    the log loses the bearers of the token and nothing else, the catalog is
    kept, and the records named like the first bearer in the render's log
    are lowered by 1 or dropped.  If the entry is still in the log, the log
    gets shorter. *)
Theorem delete_button_never_raises :
  forall (render s : State) (items : list LogItem.t) (item : LogItem.t),
    renderLogSection render = LogList items ->
    In item items ->
    exists entry first s',
      In entry (log render)
      /\ LogItem.key item = LogEntry.id entry
      /\ LogItem.onClick item = LogEntry.id entry
      /\ find (fun e => LogEntry.id e =? LogEntry.id entry) (log render)
         = Some first
      /\ deleteLogEntryOf render s (LogItem.onClick item) = Ok s'
      /\ log s'
         = filter (fun e => negb (LogEntry.id e =? LogEntry.id entry)) (log s)
      /\ ~ In (LogEntry.id entry) (map LogEntry.id (log s'))
      /\ blocks s' = blocks s
      /\ graphData s'
         = filter (fun block => 0 <? GraphBlock.count block)
             (map (decrementNamed (LogEntry.content first)) (graphData s))
      /\ (In entry (log s) ->
          (List.length (log s') < List.length (log s))%nat).
Proof.
  intros render s items item Hr Hin.
  assert (Hitems : items
                   = map (fun entry =>
                            LogItem.mk (LogEntry.id entry)
                              (itemText (LogEntry.content entry)
                                 (LogEntry.km entry))
                              (LogEntry.id entry))
                         (log render)).
  { unfold renderLogSection in Hr.
    destruct (log render) as [|e l]; [discriminate Hr|].
    simpl in Hr. injection Hr as <-. reflexivity. }
  subst items. apply in_map_iff in Hin. destruct Hin as [entry [<- Hin]].
  destruct (find_present (LogEntry.id entry) (log render))
    as [first [Hf _]]; [apply in_map; exact Hin|].
  exists entry, first. eexists. simpl.
  split; [exact Hin|]. split; [reflexivity|]. split; [reflexivity|].
  split; [exact Hf|].
  split; [apply deleteLogEntryOf_found; exact Hf|]. simpl.
  split; [reflexivity|].
  split; [apply filter_token_gone|].
  split; [reflexivity|]. split; [reflexivity|].
  exact (filter_shorter entry (log s)).
Qed.

Lemma delete_button_never_raises_witness :
  exists entry first s',
    In entry (log thenActive)
    /\ 1000 = LogEntry.id entry
    /\ 1000 = LogEntry.id entry
    /\ find (fun e => LogEntry.id e =? LogEntry.id entry) (log thenActive)
       = Some first
    /\ deleteLogEntryOf thenActive initialState 1000 = Ok s'
    /\ log s'
       = filter (fun e => negb (LogEntry.id e =? LogEntry.id entry))
           (log initialState)
    /\ ~ In (LogEntry.id entry) (map LogEntry.id (log s'))
    /\ blocks s' = blocks initialState
    /\ graphData s'
       = filter (fun block => 0 <? GraphBlock.count block)
           (map (decrementNamed (LogEntry.content first))
              (graphData initialState))
    /\ (In entry (log initialState) ->
        (List.length (log s') < List.length (log initialState))%nat).
Proof.
  apply (delete_button_never_raises thenActive initialState _
           (LogItem.mk 1000 "Warm-up - 2 km" 1000) eq_refl).
  simpl. left. reflexivity.
Defined.

(** A second press on the same Delete button.  After the first press the
    token is gone from the log, and the button, if it is still on screen,
    still belongs to the render that drew it: the second press does not
    raise and leaves log and catalog as they are, and it lowers the records
    named like the first bearer by 1 once more, dropping those that reach
    0. *)
Theorem delete_button_pressed_again :
  forall (render : State) (entry : LogEntry.t) (s1 : State),
    In entry (log render) ->
    deleteLogEntry render (LogEntry.id entry) = Ok s1 ->
    exists first s2,
      find (fun e => LogEntry.id e =? LogEntry.id entry) (log render)
      = Some first
      /\ deleteLogEntryOf render s1 (LogEntry.id entry) = Ok s2
      /\ log s2 = log s1
      /\ blocks s2 = blocks s1
      /\ graphData s2
         = filter (fun block => 0 <? GraphBlock.count block)
             (map (decrementNamed (LogEntry.content first)) (graphData s1)).
Proof.
  intros render entry s1 Hin Hd.
  destruct (find_present (LogEntry.id entry) (log render))
    as [first [Hf _]]; [apply in_map; exact Hin|].
  exists first. eexists.
  split; [exact Hf|].
  split; [apply deleteLogEntryOf_found; exact Hf|]. simpl.
  split; [|split; reflexivity].
  apply logUpdater_absent.
  rewrite (deleteLogEntry_found _ _ _ Hf) in Hd. injection Hd as <-.
  apply filter_token_gone.
Qed.

Lemma delete_button_pressed_again_witness :
  exists first s2,
    find (fun e => LogEntry.id e =? 1000) (log thenActive) = Some first
    /\ deleteLogEntryOf thenActive
         {| blocks := initialBlocks;
            graphData := [GraphBlock.mk "1" "Warm-up" 2 1;
                          GraphBlock.mk "2" "Active" 5 1];
            log := [LogEntry.mk 2000 "Active" 5] |} 1000 = Ok s2
    /\ log s2 = [LogEntry.mk 2000 "Active" 5]
    /\ blocks s2 = initialBlocks
    /\ graphData s2
       = filter (fun block => 0 <? GraphBlock.count block)
           (map (decrementNamed (LogEntry.content first))
              [GraphBlock.mk "1" "Warm-up" 2 1;
               GraphBlock.mk "2" "Active" 5 1]).
Proof.
  apply (delete_button_pressed_again thenActive (LogEntry.mk 1000 "Warm-up" 2)).
  - simpl. left. reflexivity.
  - reflexivity.
Defined.

(** ** What holds with presses on buttons of earlier renders *)

Lemma deleteLogEntryOf_ok render s logId s' :
  deleteLogEntryOf render s logId = Ok s' ->
  blocks s' = blocks s
  /\ exists c,
       graphData s'
       = filter (fun block => 0 <? GraphBlock.count block)
           (map (decrementNamed c) (graphData s)).
Proof.
  intros Hd.
  destruct (find (fun e => LogEntry.id e =? logId) (log render))
    as [first|] eqn:Hf.
  - rewrite (deleteLogEntryOf_found _ _ _ _ Hf) in Hd. injection Hd as <-.
    split; [reflexivity|]. exists (LogEntry.content first). reflexivity.
  - unfold deleteLogEntryOf in Hd.
    rewrite (graphUpdater_absent _ _ _ Hf) in Hd.
    destruct (graphData s) eqn:Hg; [|discriminate Hd].
    simpl in Hd. injection Hd as <-. simpl.
    split; [reflexivity|]. exists EmptyString. reflexivity.
Qed.

Lemma names_after_add block (g : list GraphBlock.t) :
  NoDup (map GraphBlock.content g) ->
  NoDup (map GraphBlock.content (addToGraph_updater block g)).
Proof.
  intros Hnd. unfold addToGraph_updater.
  destruct (find _ g) as [found|] eqn:Hf.
  - rewrite labels_increment. exact Hnd.
  - rewrite map_app. apply NoDup_app; [exact Hnd| |].
    + constructor; [intros []|constructor].
    + intros a Hin [Ha|[]]. simpl in Ha. subst a.
      apply in_map_iff in Hin. destruct Hin as [r [Hname Hr]].
      pose proof (find_none _ _ Hf r Hr) as Hb. simpl in Hb.
      rewrite Hname, String.eqb_refl in Hb. discriminate Hb.
Qed.

Lemma positive_after_add block (g : list GraphBlock.t) :
  Forall (fun r => 1 <= GraphBlock.count r) g ->
  Forall (fun r => 1 <= GraphBlock.count r) (addToGraph_updater block g).
Proof.
  intros Hpos. unfold addToGraph_updater. destruct (find _ g).
  - apply Forall_map. refine (Forall_impl _ _ Hpos). intros r Hr.
    destruct (String.eqb (GraphBlock.content r) (Block.content block));
      simpl; lia.
  - apply Forall_app. split; [exact Hpos|].
    constructor; [simpl; lia|constructor].
Qed.

Lemma positive_after_decrement c (g : list GraphBlock.t) :
  Forall (fun r => 1 <= GraphBlock.count r)
    (filter (fun block => 0 <? GraphBlock.count block)
       (map (decrementNamed c) g)).
Proof.
  rewrite Forall_forall. intros r Hin. apply filter_In in Hin.
  destruct Hin as [_ Hgt]. apply Z.ltb_lt in Hgt. lia.
Qed.

Lemma reachableAnyRender_records s :
  reachableAnyRender s ->
  NoDup (map GraphBlock.content (graphData s))
  /\ Forall (fun r => 1 <= GraphBlock.count r) (graphData s)
  /\ blocks s = initialBlocks.
Proof.
  induction 1 as [|s now block _ IH _|s now result s' _ IH Hd
                  |render s entry s' _ _ _ IH _ Hd|s _ IH].
  - repeat split; constructor.
  - destruct IH as [Hnd [Hpos Hb]].
    split; [apply names_after_add; exact Hnd|].
    split; [apply positive_after_add; exact Hpos|exact Hb].
  - unfold handleDragEnd in Hd.
    destruct (destination result); [|injection Hd as <-; exact IH].
    destruct (nth_error (blocks s) (index (source result))); [|discriminate].
    injection Hd as <-. destruct IH as [Hnd [Hpos Hb]].
    split; [apply names_after_add; exact Hnd|].
    split; [apply positive_after_add; exact Hpos|exact Hb].
  - destruct IH as [Hnd [_ Hb]].
    destruct (deleteLogEntryOf_ok _ _ _ _ Hd) as [Hb' [c Hg]].
    rewrite Hg. split.
    + exact (subsequence_NoDup _ _ (labels_decrement _ _) Hnd).
    + split; [apply positive_after_decrement|congruence].
  - repeat split; try constructor. exact (proj2 (proj2 IH)).
Qed.

(** Every state of [reachableWith], for any clock, is a state of
    [reachableAnyRender]. *)
Lemma reachableWith_any_render clock s :
  reachableWith clock s -> reachableAnyRender s.
Proof.
  induction 1 as [|s now block _ IH Hin _|s now result s' _ IH _ Hd
                  |s logId s' _ IH Hd|s _ IH].
  - apply any_initial.
  - apply any_click; assumption.
  - exact (any_dragEnd _ _ _ _ IH Hd).
  - destruct (in_dec Z.eq_dec logId (map LogEntry.id (log s))) as [Hin|Habs].
    + destruct (find_present _ _ Hin) as [entry [_ [He Hid]]].
      apply (any_delete s s entry); [exact IH|exact IH|exact He|].
      rewrite Hid. exact Hd.
    + rewrite (deleteLogEntry_absent _ _ Habs) in Hd.
      destruct (graphData s); [|discriminate Hd].
      injection Hd as <-. exact IH.
  - apply any_reset. exact IH.
Qed.

(** In every state the component can reach, also when clock readings
    repeat and Delete buttons of earlier renders are pressed: the records
    of the graph data have pairwise distinct names, every count is at least
    1, and the catalog is [initialBlocks]. *)
Theorem records_stay_well_formed :
  forall (s : State),
    reachableAnyRender s ->
    NoDup (labels (chartData (graphData s)))
    /\ Forall (fun r => 1 <= GraphBlock.count r) (graphData s)
    /\ blocks s = initialBlocks.
Proof.
  intros s Hreach. exact (reachableAnyRender_records s Hreach).
Qed.

(** Three clicks on Warm-up reading 1000, 1000 and 2000, a press on Delete
    for token 1000, and two more presses on the button that stayed on
    screen: the log still has the entry of token 2000 and the graph data
    is empty.  This is why no bound between counts and log entries is
    stated for [reachableAnyRender]. *)
Example stale_presses_empty_the_graph :
  reachableAnyRender
    {| blocks := initialBlocks;
       graphData := [];
       log := [LogEntry.mk 2000 "Warm-up" 2] |}.
Proof.
  assert (H0 : reachableAnyRender thenWarmUp).
  { apply (reachableWith_any_render (fun _ _ => True)).
    apply reach_click;
      [apply twiceSameTime_reachable | simpl; tauto | exact I]. }
  assert (Hin : In (LogEntry.mk 1000 "Warm-up" 2) (log thenWarmUp)).
  { simpl. left. reflexivity. }
  assert (H1 : reachableAnyRender
                 {| blocks := initialBlocks;
                    graphData := [GraphBlock.mk "1" "Warm-up" 2 2];
                    log := [LogEntry.mk 2000 "Warm-up" 2] |}).
  { exact (any_delete _ _ _ _ H0 H0 Hin eq_refl). }
  assert (H2 : reachableAnyRender
                 {| blocks := initialBlocks;
                    graphData := [GraphBlock.mk "1" "Warm-up" 2 1];
                    log := [LogEntry.mk 2000 "Warm-up" 2] |}).
  { exact (any_delete _ _ _ _ H0 H1 Hin eq_refl). }
  exact (any_delete _ _ _ _ H0 H2 Hin eq_refl).
Qed.

Lemma records_stay_well_formed_witness :
  NoDup (labels (chartData []))
  /\ Forall (fun r => 1 <= GraphBlock.count r) []
  /\ blocks {| blocks := initialBlocks;
               graphData := [];
               log := [LogEntry.mk 2000 "Warm-up" 2] |} = initialBlocks.
Proof.
  exact (records_stay_well_formed _ stale_presses_empty_the_graph).
Defined.

(** ** Adding a workout and deleting its entry *)

Lemma find_app_fresh now (l : list LogEntry.t) e :
  ~ In now (map LogEntry.id l) ->
  LogEntry.id e = now ->
  find (fun x => LogEntry.id x =? now) (l ++ [e]) = Some e.
Proof.
  intros Hfresh Hid. induction l as [|x l IH]; simpl.
  - rewrite Hid, Z.eqb_refl. reflexivity.
  - destruct (Z.eqb_spec (LogEntry.id x) now) as [Heq|_].
    + exfalso. apply Hfresh. left. exact Heq.
    + apply IH. intros Hin. apply Hfresh. right. exact Hin.
Qed.

Lemma increment_then_decrement name (g : list GraphBlock.t) :
  Forall (fun r => 1 <= GraphBlock.count r) g ->
  filter (fun block => 0 <? GraphBlock.count block)
    (map (decrementNamed name)
       (map (fun b => if String.eqb (GraphBlock.content b) name
                      then GraphBlock.withCount b (GraphBlock.count b + 1)
                      else b) g))
  = g.
Proof.
  induction 1 as [|r g Hr _ IH]; simpl; [reflexivity|].
  rewrite IH. unfold decrementNamed.
  destruct (String.eqb (GraphBlock.content r) name) eqn:Hname; simpl.
  - rewrite Hname.
    destruct (Z.ltb_spec 1 (GraphBlock.count r + 1)); [|lia]. simpl.
    destruct (Z.ltb_spec 0 (GraphBlock.count r + 1 - 1)); [|lia].
    f_equal. destruct r as [i c k n]. unfold GraphBlock.withCount. simpl.
    f_equal. lia.
  - rewrite Hname. destruct (Z.ltb_spec 0 (GraphBlock.count r)); [|lia].
    reflexivity.
Qed.

(** Deleting the entry an add has just appended undoes the add: when the
    clock reading of the add is not a token of the log and every record has
    a count of at least 1, [deleteLogEntry] with that reading on the state
    after [addToGraph] returns the state of before. *)
Theorem add_then_delete_restores :
  forall (s : State) (now : Z) (block : Block.t),
    ~ In now (map LogEntry.id (log s)) ->
    Forall (fun r => 1 <= GraphBlock.count r) (graphData s) ->
    deleteLogEntry (addToGraph s now block) now = Ok s.
Proof.
  intros s now block Hfresh Hpos.
  set (e := LogEntry.mk now (Block.content block) (Block.km block)).
  assert (Hf : find (fun x => LogEntry.id x =? now)
                 (log (addToGraph s now block)) = Some e).
  { simpl. unfold addToLog_updater. apply find_app_fresh;
      [exact Hfresh|reflexivity]. }
  rewrite (deleteLogEntry_found _ _ _ Hf). f_equal.
  assert (Hlog : filter (fun x => negb (LogEntry.id x =? now))
                   (log (addToGraph s now block)) = log s).
  { simpl. unfold addToLog_updater. rewrite filter_app. simpl.
    rewrite Z.eqb_refl. simpl. rewrite app_nil_r.
    apply logUpdater_absent. exact Hfresh. }
  assert (Hgraph : filter (fun b => 0 <? GraphBlock.count b)
                     (map (decrementNamed (LogEntry.content e))
                        (graphData (addToGraph s now block)))
                   = graphData s).
  { simpl. unfold addToGraph_updater.
    destruct (find (fun b => String.eqb (GraphBlock.content b)
                               (Block.content block)) (graphData s))
      as [found|] eqn:Hfound.
    - apply increment_then_decrement. exact Hpos.
    - rewrite map_app, filter_app. simpl.
      unfold decrementNamed at 2. simpl. rewrite String.eqb_refl. simpl.
      rewrite app_nil_r. apply decrement_no_match; [|exact Hpos].
      intros r Hr Heq. pose proof (find_none _ _ Hfound r Hr) as Hb.
      simpl in Hb. rewrite Heq, String.eqb_refl in Hb. discriminate Hb. }
  rewrite Hlog, Hgraph. destruct s; reflexivity.
Qed.

Lemma add_then_delete_restores_witness :
  deleteLogEntry (addToGraph oneAdded 2000 active) 2000 = Ok oneAdded
  /\ deleteLogEntry (addToGraph oneAdded 2000 warmUp) 2000 = Ok oneAdded.
Proof.
  assert (Hfresh : ~ In 2000 (map LogEntry.id (log oneAdded))).
  { simpl. intros [H|[]]. discriminate H. }
  assert (Hpos : Forall (fun r => 1 <= GraphBlock.count r) (graphData oneAdded)).
  { repeat constructor. simpl. lia. }
  split.
  - exact (add_then_delete_restores oneAdded 2000 active Hfresh Hpos).
  - exact (add_then_delete_restores oneAdded 2000 warmUp Hfresh Hpos).
Defined.

(** ** Where entries and records come from *)






(** ** What presses on buttons of the current render keep *)








(** ** The size of the chart *)



(** ** The total of the bars *)

Lemma tally_filter_other name other (l : list LogEntry.t) :
  name <> other ->
  tally name
    (filter (fun e => negb (String.eqb (LogEntry.content e) other)) l)
  = tally name l.
Proof.
  intros Hne. induction l as [|e l IH]; simpl; [reflexivity|].
  destruct (String.eqb_spec (LogEntry.content e) other) as [Heq|Hneq]; simpl.
  - rewrite tally_cons, IH.
    destruct (String.eqb_spec (LogEntry.content e) name); [congruence|].
    reflexivity.
  - rewrite !tally_cons, IH. reflexivity.
Qed.

(** With distinct record names and every entry covered, the tallies of the
    record names add up to the length of the log. *)
Lemma tallies_add_up (g : list GraphBlock.t) :
  forall l : list LogEntry.t,
    NoDup (map GraphBlock.content g) ->
    (forall e, In e l ->
       exists r, In r g /\ GraphBlock.content r = LogEntry.content e) ->
    sumCounts (map (fun r => Z.of_nat (tally (GraphBlock.content r) l)) g)
    = Z.of_nat (List.length l).
Proof.
  induction g as [|r g IH]; intros l Hnd Hcov.
  - destruct l as [|e l]; [reflexivity|].
    destruct (Hcov e (or_introl eq_refl)) as [r [[] _]].
  - simpl in Hnd. apply NoDup_cons_iff in Hnd. destruct Hnd as [Hnotin Hnd].
    set (name := GraphBlock.content r) in *.
    set (rest := filter (fun e => negb (String.eqb (LogEntry.content e) name)) l).
    assert (Hrest : sumCounts
                      (map (fun r0 => Z.of_nat (tally (GraphBlock.content r0) rest)) g)
                    = Z.of_nat (List.length rest)).
    { apply IH; [exact Hnd|]. intros e Hin. apply filter_In in Hin.
      destruct Hin as [Hin Hname]. destruct (Hcov e Hin) as [r0 [[<-|Hr0] Hc]].
      - fold name in Hc. rewrite Hc, String.eqb_refl in Hname.
        discriminate Hname.
      - exists r0. split; assumption. }
    assert (Hsame : map (fun r0 => Z.of_nat (tally (GraphBlock.content r0) rest)) g
                    = map (fun r0 => Z.of_nat (tally (GraphBlock.content r0) l)) g).
    { apply map_ext_in. intros r0 Hr0. f_equal. apply tally_filter_other.
      intros Heq. apply Hnotin. rewrite <- Heq. apply in_map. exact Hr0. }
    rewrite Hsame in Hrest. simpl. rewrite Hrest.
    pose proof (filter_split_length
                  (fun e => String.eqb (LogEntry.content e) name) l) as Hsplit.
    cbv beta in Hsplit. unfold tally. subst rest name. lia.
Qed.

Lemma sumCounts_eq (f h : GraphBlock.t -> Z) (g : list GraphBlock.t) :
  Forall (fun r => f r = h r) g ->
  sumCounts (map f g) = sumCounts (map h g).
Proof. induction 1; simpl; lia. Qed.

(** When no clock reading repeats a token of the log, the counts of the
    chart add up to exactly the number of log entries. *)
Theorem chart_total_is_log_length :
  forall (s : State),
    reachableWith freshClock s ->
    sumCounts (data (chartData (graphData s)))
    = Z.of_nat (List.length (log s)).
Proof.
  intros s Hreach.
  destruct (fresh_clock_consistent s Hreach) as [_ Hnames Hcnt _ Hcov].
  rewrite <- (tallies_add_up (graphData s) (log s) Hnames Hcov).
  unfold chartData. simpl. apply sumCounts_eq. exact Hcnt.
Qed.

Lemma chart_total_is_log_length_witness :
  sumCounts
    (data (chartData (graphData
       (addToGraph (addToGraph (addToGraph initialState 1000 warmUp)
                      1001 warmUp) 1002 active))))
  = 3.
Proof.
  exact (chart_total_is_log_length _ scenario_1_fresh).
Defined.

(** ** Witnesses of the fresh-clock theorems *)

Lemma fresh_clock_invariant_witness :
  countsMatchLog
    (addToGraph (addToGraph (addToGraph initialState 1000 warmUp)
                   1001 warmUp) 1002 active)
  /\ noZeroCount
       (addToGraph (addToGraph (addToGraph initialState 1000 warmUp)
                      1001 warmUp) 1002 active)
  /\ uniqueTokens
       (addToGraph (addToGraph (addToGraph initialState 1000 warmUp)
                      1001 warmUp) 1002 active).
Proof.
  exact (fresh_clock_invariant _ scenario_1_fresh).
Defined.

Lemma deleteEach_is_reset_witness :
  deleteEach [1000; 1001; 1002]
    (addToGraph (addToGraph (addToGraph initialState 1000 warmUp)
                   1001 warmUp) 1002 active)
  = Ok {| blocks := initialBlocks; graphData := []; log := [] |}.
Proof.
  exact (proj1 (deleteEach_is_reset _ scenario_1_fresh)).
Defined.

(** ** The blocks section and [handleDragEnd] *)

Lemma mapIndexFrom_map {A B C : Type} (f : A -> nat -> B) (h : B -> C)
  (h' : A -> C) (l : list A) :
  (forall a n, h (f a n) = h' a) ->
  forall i, map h (mapIndexFrom f i l) = map h' l.
Proof.
  intros Hh. induction l as [|a l IH]; intros i; simpl; [reflexivity|].
  rewrite Hh, IH. reflexivity.
Qed.

Lemma mapIndexFrom_indices {A B : Type} (f : A -> nat -> B) (h : B -> nat)
  (l : list A) :
  (forall a n, h (f a n) = n) ->
  forall i, map h (mapIndexFrom f i l) = seq i (List.length l).
Proof.
  intros Hh. induction l as [|a l IH]; intros i; simpl; [reflexivity|].
  rewrite Hh, IH. reflexivity.
Qed.

Lemma mapIndexFrom_In {A B : Type} (f : A -> nat -> B) (l : list A) :
  forall i b,
    In b (mapIndexFrom f i l) ->
    exists n a, nth_error l n = Some a /\ b = f a (i + n)%nat.
Proof.
  induction l as [|x l IH]; intros i b Hin; [contradiction|].
  destruct Hin as [<-|Hin].
  - exists 0%nat, x. split; [reflexivity|]. rewrite Nat.add_0_r. reflexivity.
  - destruct (IH _ _ Hin) as [n [a [Hn ->]]].
    exists (S n), a. split; [exact Hn|]. f_equal. lia.
Qed.

(** The blocks section shows one draggable per block of the catalog, in
    order, with indices 0, 1, 2, ... and the block's [id] as key; dropping
    any of them on a destination never raises and does what a click on it
    does, [addToGraph] of its block. *)
Theorem rendered_blocks_drag_is_click :
  forall (s : State),
    map Draggable.index (renderBlocks s) = seq 0 (List.length (blocks s))
    /\ map Draggable.onClick (renderBlocks s) = blocks s
    /\ map Draggable.key (renderBlocks s) = map Block.id (blocks s)
    /\ (forall item now src dest,
          In item (renderBlocks s) ->
          handleDragEnd s now
            {| source := {| droppableId := src;
                            index := Draggable.index item |};
               destination := Some dest |}
          = Ok (addToGraph s now (Draggable.onClick item))).
Proof.
  intros s. unfold renderBlocks, mapIndex.
  split; [apply mapIndexFrom_indices; reflexivity|].
  split; [rewrite <- (map_id (blocks s)) at 2;
          apply mapIndexFrom_map; reflexivity|].
  split; [apply mapIndexFrom_map; reflexivity|].
  intros item now src dest Hin.
  destruct (mapIndexFrom_In _ _ _ _ Hin) as [n [block [Hn ->]]].
  unfold handleDragEnd. simpl. rewrite Hn. reflexivity.
Qed.

Lemma rendered_blocks_drag_is_click_witness :
  handleDragEnd oneAdded 2000
    {| source := {| droppableId := "workoutBlocks"; index := 1 |};
       destination := Some {| droppableId := "workoutBlocks"; index := 0 |} |}
  = Ok (addToGraph oneAdded 2000 active).
Proof.
  apply (proj2 (proj2 (proj2 (rendered_blocks_drag_is_click oneAdded)))
           (Draggable.mk "2" "2" 1 active "Active - 5 km")).
  simpl. right. left. reflexivity.
Defined.

(** [handleDragEnd] raises exactly when the result has a destination and
    its source index is not an index of [blocks]. *)
Theorem handleDragEnd_raises_iff :
  forall (s : State) (now : Z) (result : DropResult),
    handleDragEnd s now result = Throw TypeError
    <-> destination result <> None
        /\ (List.length (blocks s) <= index (source result))%nat.
Proof.
  intros s now result. unfold handleDragEnd.
  destruct (destination result) as [d|].
  - destruct (nth_error (blocks s) (index (source result))) as [b|] eqn:Hn.
    + split; [discriminate|]. intros [_ Hlen].
      apply nth_error_None in Hlen. congruence.
    + split; [|reflexivity]. intros _. split; [discriminate|].
      apply nth_error_None. exact Hn.
  - split; [discriminate|]. intros [Hd _]. contradiction.
Qed.

Lemma handleDragEnd_raises_iff_witness :
  handleDragEnd initialState 1000
    {| source := {| droppableId := "workoutBlocks"; index := 6 |};
       destination := Some {| droppableId := "workoutBlocks"; index := 0 |} |}
  = Throw TypeError.
Proof.
  apply (proj2 (handleDragEnd_raises_iff initialState 1000 _)).
  split; [discriminate|]. simpl. lia.
Defined.

(** ** The colours of the chart *)

Lemma append_inv_head (s a b : string) :
  (s ++ a)%string = (s ++ b)%string -> a = b.
Proof.
  induction s as [|c s IH]; simpl; intros H; [exact H|].
  injection H as H. exact (IH H).
Qed.

Lemma length_append (a b : string) :
  String.length (a ++ b) = (String.length a + String.length b)%nat.
Proof. induction a as [|c a IH]; simpl; [reflexivity|]. rewrite IH. reflexivity. Qed.

Lemma append_inv_tail (a b s : string) :
  (a ++ s)%string = (b ++ s)%string -> a = b.
Proof.
  revert b. induction a as [|c a IH]; intros [|c' b] H.
  - reflexivity.
  - apply (f_equal String.length) in H. simpl in H.
    rewrite length_append in H. lia.
  - apply (f_equal String.length) in H. simpl in H.
    rewrite length_append in H. lia.
  - simpl in H. injection H as Hc H. rewrite Hc, (IH b H). reflexivity.
Qed.

Lemma to_uint_nonnil n : Nat.to_uint n <> Nil.
Proof.
  pose proof (Unsigned.to_of (Nat.to_uint n)) as H.
  rewrite Unsigned.of_to in H. rewrite H. unfold unorm.
  destruct (nzhead (Nat.to_uint n)); discriminate.
Qed.

Lemma hsl_injective i j : hsl i = hsl j -> i = j.
Proof.
  unfold hsl. intros H.
  apply append_inv_head, append_inv_tail in H.
  apply (f_equal NilZero.uint_of_string) in H.
  rewrite !NilZero.usu in H by apply to_uint_nonnil.
  injection H as H. apply Unsigned.to_uint_inj in H. lia.
Qed.

Lemma mapIndexFrom_const {A B : Type} (f : nat -> B) (l : list A) :
  forall i,
    mapIndexFrom (fun _ n => f n) i l = map f (seq i (List.length l)).
Proof.
  induction l as [|a l IH]; intros i; simpl; [reflexivity|].
  rewrite IH. reflexivity.
Qed.

Lemma NoDup_map_injective {A B : Type} (f : A -> B) (l : list A) :
  (forall x y, f x = f y -> x = y) -> NoDup l -> NoDup (map f l).
Proof.
  intros Hinj. induction 1 as [|a l Hnotin _ IH]; simpl; constructor.
  - intros Hin. apply in_map_iff in Hin. destruct Hin as [x [Hx Hin]].
    apply Hinj in Hx. subst x. exact (Hnotin Hin).
  - exact IH.
Qed.

(** Different positions get different colour strings, so the colours of a
    chart are pairwise distinct, whatever the graph data. *)
Theorem chart_colours_distinct :
  (forall i j, hsl i = hsl j -> i = j)
  /\ (forall g, NoDup (backgroundColor (chartData g))).
Proof.
  split; [exact hsl_injective|].
  intros g. unfold chartData, mapIndex. simpl.
  rewrite (mapIndexFrom_const hsl).
  apply NoDup_map_injective; [exact hsl_injective|apply seq_NoDup].
Qed.

Lemma chart_colours_distinct_witness :
  NoDup ["hsl(0, 50%, 60%)"%string; "hsl(60, 50%, 60%)"%string].
Proof.
  exact (proj2 chart_colours_distinct (graphData twoBlocksSameTime)).
Defined.

(** ** The order of the log *)





